(** * Claim-check engine: scoring, identity resolution, retrieval and fusion

    A shallow embedding of [backend/services/claim_engine.py] and the
    properties its specification states of it.

    - Python values are modelled by [pyval] (the scalar values a database
      column or a JSON leaf can hold: [None], booleans, integers, text) and
      [jsonval] (a scalar or a flat list of scalars, as the analysis reply
      holds them).  Records (policies, chunks, the analysis reply, the
      result) are dictionaries: finite maps from field names to values.  Text
      is ASCII: case mapping leaves every other byte unchanged.
      Floating-point values are outside the model.
    - Operations that Python may abort with an exception return an
      [outcome].  An exception carries its class and the text [str] renders
      it with; for an error raised by the interpreter itself that text is
      left empty, since no code path reads it.
    - The vector store, the embedder and the language model are outside the
      file: [run_claim_check] is a program over calls to them ([prog]), and
      its properties are stated over every execution ([exec]), that is, over
      every way these collaborators may answer.

    Definitions come first, in the order of the source; the properties
    follow. *)

From Stdlib Require Import ZArith QArith List Ascii String Lia.
From stdpp Require Import base option list strings gmap fin_maps pretty sorting.

Local Open Scope string_scope.
Local Open Scope Z_scope.
Local Open Scope list_scope.

(** ** Python values *)

Inductive pyval : Type :=
| PNone
| PBool (b : bool)
| PInt (z : Z)
| PStr (s : string).

Inductive jsonval : Type :=
| JVal (v : pyval)
| JList (l : list pyval).

Inductive exn_class : Type := TypeError | AttributeError | KeyError | OtherError.

Record exn : Type := Exn { exn_kind : exn_class; exn_msg : string }.

Inductive outcome (A : Type) : Type :=
| Returns (a : A)
| Raises (e : exn).
Arguments Returns {A} a.
Arguments Raises {A} e.

#[global] Instance outcome_ret : MRet outcome := fun _ a => Returns a.
#[global] Instance outcome_bind : MBind outcome := fun _ _ f m =>
  match m with
  | Returns a => f a
  | Raises e => Raises e
  end.

Definition raise {A} (k : exn_class) : outcome A := Raises (Exn k "").

#[global] Instance pyval_eq_dec : EqDecision pyval.
Proof. solve_decision. Defined.

Abbreviation dict := (gmap string pyval).

(** [bool(v)] *)
Definition truthy (v : pyval) : bool :=
  match v with
  | PNone => false
  | PBool b => b
  | PInt z => negb (z =? 0)
  | PStr s => negb (String.eqb s "")
  end.

Definition jtruthy (v : jsonval) : bool :=
  match v with
  | JVal v => truthy v
  | JList l => match l with [] => false | _ => true end
  end.

(** [a or b] *)
Definition py_or (a b : pyval) : pyval := if truthy a then a else b.
Definition j_or (a b : jsonval) : jsonval := if jtruthy a then a else b.

(** [d.get(k)] and [d.get(k, dflt)]: the default replaces a missing key only. *)
Definition get (d : dict) (k : string) : pyval := default PNone (d !! k).
Definition get_or (d : dict) (k : string) (dflt : pyval) : pyval := default dflt (d !! k).

(** The integer a value denotes in a numeric comparison ([bool] is a subclass
    of [int]); [None] and text do not compare with a number. *)
Definition as_number (v : pyval) : option Z :=
  match v with
  | PInt z => Some z
  | PBool b => Some (if b then 1 else 0)
  | _ => None
  end.

(** [v <= n] and [v > n] against an integer literal *)
Definition py_le (v : pyval) (n : Z) : outcome bool :=
  match as_number v with
  | Some z => Returns (z <=? n)
  | None => raise TypeError
  end.

Definition py_gt (v : pyval) (n : Z) : outcome bool :=
  match as_number v with
  | Some z => Returns (n <? z)
  | None => raise TypeError
  end.

(** [len(v)] *)
Definition py_len (v : jsonval) : outcome Z :=
  match v with
  | JList l => Returns (Z.of_nat (length l))
  | JVal (PStr s) => Returns (Z.of_nat (String.length s))
  | JVal _ => raise TypeError
  end.

(** ** Text *)

Definition lower_ascii (c : ascii) : ascii :=
  let n := nat_of_ascii c in
  if (Nat.leb 65 n && Nat.leb n 90)%bool then ascii_of_nat (n + 32) else c.

Definition upper_ascii (c : ascii) : ascii :=
  let n := nat_of_ascii c in
  if (Nat.leb 97 n && Nat.leb n 122)%bool then ascii_of_nat (n - 32) else c.

Fixpoint lower (s : string) : string :=
  match s with
  | EmptyString => EmptyString
  | String c s' => String (lower_ascii c) (lower s')
  end.

Fixpoint upper (s : string) : string :=
  match s with
  | EmptyString => EmptyString
  | String c s' => String (upper_ascii c) (upper s')
  end.

(** [needle in hay] on text *)
Fixpoint str_in (needle hay : string) : bool :=
  String.prefix needle hay ||
  match hay with
  | EmptyString => false
  | String _ hay' => str_in needle hay'
  end.

(** [v.lower()] *)
Definition py_lower (v : pyval) : outcome string :=
  match v with
  | PStr s => Returns (lower s)
  | _ => raise AttributeError
  end.

Definition py_upper (v : pyval) : outcome string :=
  match v with
  | PStr s => Returns (upper s)
  | _ => raise AttributeError
  end.

(** [needle in v] for a text literal [needle] *)
Definition py_contains (needle : string) (v : pyval) : outcome bool :=
  match v with
  | PStr s => Returns (str_in needle s)
  | _ => raise TypeError
  end.

(** [s in (t1, t2, ...)] on text *)
Definition str_in_tuple (s : string) (t : list string) : bool :=
  existsb (String.eqb s) t.

(** ** Deterministic scoring *)

Definition compute_claim_score
    (coverage_status : string) (exclusions_applicable risk_flags : jsonval)
    (policy : dict) : outcome Z :=
  let score := 0 in
  (* Coverage base *)
  let status := lower coverage_status in
  let score :=
    if String.eqb status "covered" then score + 50
    else if String.eqb status "partially_covered" then score + 25
    else score in
  (* Waiting period from metadata *)
  let ped := get_or policy "waiting_period_preexisting_years" (PInt 4) in
  le1 ← py_le ped 1;
  score ← (if le1 : bool then Returns (score + 20)
           else le2 ← py_le ped 2;
                Returns (if le2 : bool then score + 12 else score));
  (* Exclusions *)
  let excl := j_or exclusions_applicable (JList []) in
  let score := if negb (jtruthy excl) then score + 15 else score - 25 in
  (* Risk flags *)
  let flags := j_or risk_flags (JList []) in
  score ← (if negb (jtruthy flags) then Returns (score + 10)
           else n ← py_len flags; Returns (score - Z.min (n * 5) 20));
  (* Policy metadata penalties *)
  copay ← py_gt (get_or policy "co_pay_percent" (PInt 0)) 0;
  let score := if copay : bool then score - 5 else score in
  let room := py_or (get policy "room_rent_limit") (PStr "") in
  pct ← (if truthy room then py_contains "%" room else Returns false);
  score ← (if pct : bool then Returns (score - 10)
           else if truthy room then
             low ← py_lower room;
             Returns (if negb (str_in_tuple low
                                 ["no limit"; "no sub-limits"; "no restriction"; ""])
                      then score - 5 else score)
           else Returns score);
  Returns (Z.max 0 (Z.min 100 score)).

(** ** The rule table of the scoring engine, as the specification words it

    Each factor of the table is a function of the quantity it reads; the
    table sums them and the result is clamped to [0,100]. *)

Definition clamp (z : Z) : Z := Z.max 0 (Z.min 100 z).

Definition coverage_base (status : string) : Z :=
  if String.eqb status "covered" then 50
  else if String.eqb status "partially_covered" then 25
  else 0.

Definition ped_wait_bonus (years : Z) : Z :=
  if years <=? 1 then 20 else if years <=? 2 then 12 else 0.

Definition exclusions_delta (n : nat) : Z :=
  match n with O => 15 | S _ => -25 end.

Definition risk_flags_delta (n : nat) : Z :=
  match n with O => 10 | S _ => - Z.min (5 * Z.of_nat n) 20 end.

Definition co_pay_delta (percent : Z) : Z :=
  if 0 <? percent then -5 else 0.

Definition room_rent_delta (text : string) : Z :=
  if str_in "%" text then -10
  else if negb (String.eqb text "")
          && negb (str_in_tuple (lower text)
                     ["no limit"; "no sub-limits"; "no restriction"])
  then -5
  else 0.

Definition rule_table_sum (status : string) (exclusions flags : nat)
    (ped_years co_pay : Z) (room : string) : Z :=
  coverage_base status + ped_wait_bonus ped_years + exclusions_delta exclusions
  + risk_flags_delta flags + co_pay_delta co_pay + room_rent_delta room.

(** The number of entries the table counts in an exclusions or risk-flags
    value: the length of a list or of a text, one for any other value that
    counts as true. *)
Definition jsize (v : jsonval) : nat :=
  match v with
  | JList l => length l
  | JVal (PStr s) => String.length s
  | JVal v => if truthy v then 1%nat else 0%nat
  end.

(** A risk-flags value whose length can be taken when it counts as true. *)
Definition has_length (v : jsonval) : bool :=
  match v with
  | JList _ | JVal (PStr _) => true
  | JVal v => negb (truthy v)
  end.

(** Reading the metadata fields: a number with its default when the field is
    absent, the room-rent text (empty when there is none). *)
Definition field_number (d : dict) (k : string) (dflt : Z) : Z :=
  match d !! k with
  | Some v => default dflt (as_number v)
  | None => dflt
  end.

Definition field_text (d : dict) (k : string) : string :=
  match d !! k with
  | Some (PStr s) => s
  | _ => ""
  end.

(** The metadata a scoring call can digest: the two numeric fields are absent
    or hold a number, the room-rent limit is absent, holds text, or holds a
    value that counts as false. *)
Definition numeric_or_absent (d : dict) (k : string) : bool :=
  match d !! k with
  | None => true
  | Some v => bool_decide (is_Some (as_number v))
  end.

Definition text_or_falsy (d : dict) (k : string) : bool :=
  match d !! k with
  | None | Some (PStr _) => true
  | Some v => negb (truthy v)
  end.

Definition scoring_fields_typed (policy : dict) : bool :=
  numeric_or_absent policy "waiting_period_preexisting_years"
  && numeric_or_absent policy "co_pay_percent"
  && text_or_falsy policy "room_rent_limit".

(** ** Rendering values in formatted text *)

Definition nl : string := String "010"%char EmptyString.

(** [str(v)], as an f-string renders a value *)
Definition py_str (v : pyval) : string :=
  match v with
  | PNone => "None"
  | PBool true => "True"
  | PBool false => "False"
  | PInt z => pretty z
  | PStr s => s
  end.

(** ** Chunks: context block and deduplication *)

Definition CLAIM_SECTIONS : list string :=
  ["exclusions"; "coverage"; "waiting_periods"; "conditions"; "limits"].

(** One entry of the context block; [i] is the 1-based position. *)
Definition context_part (i : nat) (chunk : dict) : outcome string :=
  section ← py_upper (get_or chunk "section_type" (PStr "general"));
  let page := get_or chunk "page_number" (PStr "?") in
  match chunk !! "content" with
  | None => raise KeyError
  | Some content =>
      Returns ("[CHUNK " +:+ pretty i +:+ " | Section: " +:+ section
               +:+ " | Page: " +:+ py_str page +:+ "]" +:+ nl +:+ py_str content)
  end.

Fixpoint context_parts (i : nat) (chunks : list dict) : outcome (list string) :=
  match chunks with
  | [] => Returns []
  | chunk :: rest =>
      part ← context_part i chunk;
      parts ← context_parts (S i) rest;
      Returns (part :: parts)
  end.

Definition _build_context_block (chunks : list dict) : outcome string :=
  parts ← context_parts 1 chunks;
  Returns (String.concat (nl +:+ nl +:+ "---" +:+ nl +:+ nl) parts).

(** Python's [==] on scalars: [True] and [False] are the integers 1 and 0. *)
Definition py_eqb (a b : pyval) : bool :=
  match a, b with
  | PNone, PNone => true
  | PStr s, PStr t => String.eqb s t
  | (PBool _ | PInt _), (PBool _ | PInt _) =>
      bool_decide (as_number a = as_number b)
  | _, _ => false
  end.

(** Two identifiers are equal for Python exactly when their keys are. *)
Definition py_key (v : pyval) : pyval :=
  match v with
  | PBool b => PInt (if b then 1 else 0)
  | _ => v
  end.

Definition chunk_key (c : dict) : pyval := py_key (get c "id").

Definition has_id (c : dict) : bool := truthy (get c "id").

(** The loop of [_dedupe]; [seen] holds the identifiers met so far (a set in
    the source: only membership is asked of it). *)
Fixpoint dedupe_loop (seen : list pyval) (chunks : list dict) : list dict :=
  match chunks with
  | [] => []
  | c :: rest =>
      let cid := get c "id" in
      if truthy cid && negb (existsb (py_eqb cid) seen)
      then c :: dedupe_loop (cid :: seen) rest
      else dedupe_loop seen rest
  end.

Definition _dedupe (chunks : list dict) : list dict := dedupe_loop [] chunks.

(** ** Metadata enrichment of an uploaded policy *)

Definition SCORING_FIELDS : list string :=
  ["waiting_period_preexisting_years"; "co_pay_percent"; "room_rent_limit";
   "waiting_period_maternity_months"; "covers_maternity"; "covers_opd"].

(** The body of the inner loop: copy one field unless the catalog has no
    value for it or the policy already has one. *)
Definition is_none (v : pyval) : bool :=
  match v with PNone => true | _ => false end.

Definition merge_field (cp : dict) (policy : dict) (field : string) : dict :=
  if negb (is_none (get cp field)) && is_none (get policy field)
  then <[field := get cp field]> policy
  else policy.

(** The loop over the catalog: [ins] is the lower-cased insurer of the
    uploaded policy; the first record whose insurer matches is merged and the
    scan stops. *)
Fixpoint enrich_from_catalog (ins : string) (policy : dict) (all_catalog : list dict)
    : outcome dict :=
  match all_catalog with
  | [] => Returns policy
  | cp :: rest =>
      cp_ins ← py_lower (py_or (get cp "insurer") (PStr ""));
      if negb (String.eqb ins "") && (str_in ins cp_ins || str_in cp_ins ins)
      then Returns (foldl (merge_field cp) policy SCORING_FIELDS)
      else enrich_from_catalog ins policy rest
  end.

(** The insurer name the scan compares, and the test it applies to the
    uploaded name and a catalog name. *)
Definition insurer_name (d : dict) : string := lower (field_text d "insurer").

Definition insurer_matches (ins cp_ins : string) : bool :=
  negb (String.eqb ins "") && (str_in ins cp_ins || str_in cp_ins ins).

(** The enrichment of the uploaded record as [run_claim_check] performs it:
    lower-case the uploaded insurer ([None] and the empty text alike give the
    empty name), then scan the catalog. *)
Definition enrich_uploaded (uploaded : dict) (all_catalog : list dict) : outcome dict :=
  ins ← py_lower (py_or (get uploaded "insurer") (PStr ""));
  enrich_from_catalog ins uploaded all_catalog.

(** ** Reciprocal rank fusion *)

(** The identifiers of a ranked list, in rank order. *)
Definition chunk_ids (chunks : list dict) : list pyval := (λ c, get c "id") <$> chunks.

Definition id_in (cid : pyval) (ids : list pyval) : bool := existsb (py_eqb cid) ids.

(** 1-based rank of the first chunk with identifier [cid], if any. *)
Fixpoint rank_of (cid : pyval) (rank : nat) (ids : list pyval) : option nat :=
  match ids with
  | [] => None
  | i :: rest => if py_eqb cid i then Some rank else rank_of cid (S rank) rest
  end.

Definition rrf_contribution (k : nat) (cid : pyval) (ranked : list dict) : Q :=
  match rank_of cid 1 (chunk_ids ranked) with
  | Some rank => (1 # Pos.of_nat (k + rank))%Q
  | None => 0%Q
  end.

Definition rrf_score (k : nat) (lists : list (list dict)) (c : dict) : Q :=
  foldr (λ ranked acc, (rrf_contribution k (get c "id") ranked + acc)%Q) 0%Q lists.

(** First occurrence of every identifier, in input order. *)
Fixpoint first_by_id (seen : list pyval) (chunks : list dict) : list dict :=
  match chunks with
  | [] => []
  | c :: rest =>
      if id_in (get c "id") seen then first_by_id seen rest
      else c :: first_by_id (get c "id" :: seen) rest
  end.

(** Stable insertion by descending score: a chunk goes in front of the first
    chunk it strictly beats, hence behind every earlier chunk of equal
    score. *)
Fixpoint insert_by_score (score : dict → Q) (c : dict) (sorted : list dict) : list dict :=
  match sorted with
  | [] => [c]
  | d :: rest =>
      if negb (Qle_bool (score c) (score d))
      then c :: d :: rest
      else d :: insert_by_score score c rest
  end.

(** Modelled from the spec: [vector_store.rrf_fusion], whose source is not
    part of the file under study.  Every chunk is scored by the sum, over the
    ranked lists in which its identifier appears, of 1/(k + rank) with k = 60
    and ranks counted from 1; the candidates (one chunk per identifier, in
    input order) are sorted by descending score, ties keeping input order, and
    the first [top_k] are kept. *)
Definition rrf_fusion_spec (semantic keyword : list dict) (top_k : nat) : list dict :=
  let score := rrf_score 60 [semantic; keyword] in
  let candidates := first_by_id [] (semantic ++ keyword) in
  take top_k (foldl (λ sorted c, insert_by_score score c sorted) [] candidates).

(** [x] stands before [y] in [l]. *)
Definition ranked_before (l : list dict) (x y : dict) : Prop :=
  ∃ i j : nat, (i < j)%nat ∧ l !! i = Some x ∧ l !! j = Some y.

(** The order the specification gives a fused set: by descending score, and
    among chunks of equal score by first appearance among the candidates. *)
Definition by_score (score : dict → Q) (candidates : list dict) (x y : dict) : Prop :=
  (score y < score x)%Q ∨ ((score x == score y)%Q ∧ ranked_before candidates x y).

Definition fused_order (semantic keyword : list dict) : dict → dict → Prop :=
  by_score (rrf_score 60 [semantic; keyword]) (first_by_id [] (semantic ++ keyword)).

(** ** Results and normalisation *)

(** Truth value of an optional record: [None] and the empty record are false. *)
Definition record (o : option dict) : option dict :=
  match o with
  | Some d => if bool_decide (d = ∅) then None else Some d
  | None => None
  end.

Abbreviation claim_result := (gmap string jsonval).

Definition error_result (msg : string) : claim_result := {[ "error" := JVal (PStr msg) ]}.

Definition jget (d : gmap string jsonval) (k : string) : jsonval :=
  default (JVal PNone) (d !! k).

(** Normalisation of the status the analysis reports. *)
Definition normalize_status (analysis : gmap string jsonval) : string :=
  match default (JVal (PStr "unknown")) (analysis !! "coverage_status") with
  | JVal (PStr s) =>
      if negb (str_in_tuple s ["covered"; "partially_covered"; "excluded"; "unknown"])
      then "unknown" else s
  | _ => "unknown"
  end.

(** The texts of the three composed messages and of the user prompt. *)
Definition embedding_failed_message (e : exn) : string :=
  "Embedding failed: " +:+ exn_msg e.

Definition no_evidence_message (condition : string) : string :=
  "No relevant policy clause found for '" +:+ condition +:+ "'. "
  +:+ "The policy document may not contain information about this condition, "
  +:+ "or the document may not be indexed correctly.".

Definition no_document_message (policy_name insurer : pyval) : string :=
  "No embedded policy document found for " +:+ py_str policy_name +:+ " "
  +:+ "(" +:+ py_str insurer +:+ "). "
  +:+ "Claim check requires an uploaded and indexed PDF. "
  +:+ "Currently only Tata AIG policies have embedded documents — "
  +:+ "please select a Tata AIG policy or upload this policy's PDF first.".

Definition user_prompt_text (context_block condition treatment_type : string) : string :=
  "CONTEXT BLOCK:" +:+ nl +:+ context_block +:+ nl +:+ nl
  +:+ "CONDITION TO ANALYZE: " +:+ condition +:+ nl
  +:+ "TREATMENT TYPE: " +:+ treatment_type +:+ nl +:+ nl
  +:+ "Analyze whether this condition/treatment is covered, excluded, or restricted "
  +:+ "based ONLY on the context block above. Be decisive — use 'covered' if general "
  +:+ "hospitalization is covered and no exclusion is found for this condition.".

(** The success body, in the order the source lists its keys. *)
Definition success_result (policy_name : pyval) (condition treatment_type : string)
    (coverage_status : string) (feasibility_score : Z)
    (severity_requirements waiting_period exclusions_applicable risk_flags
       required_documents analysis_summary : jsonval)
    (chunks_used : nat) : claim_result :=
  <["policy_name" := JVal policy_name]>
  (<["diagnosis" := JVal (PStr condition)]>
  (<["treatment_type" := JVal (PStr treatment_type)]>
  (<["coverage_status" := JVal (PStr coverage_status)]>
  (<["feasibility_score" := JVal (PInt feasibility_score)]>
  (<["severity_requirements" := severity_requirements]>
  (<["waiting_period" := waiting_period]>
  (<["exclusions_applicable" := exclusions_applicable]>
  (<["risk_flags" := risk_flags]>
  (<["required_documents" := required_documents]>
  (<["analysis_summary" := analysis_summary]>
  (<["chunks_used" := JVal (PInt (Z.of_nat chunks_used))]>
  (<["error" := JVal PNone]> ∅)))))))))))).

(** The two shapes of a result: an error result holds the error message and
    nothing else; a success result holds every success field and [None] as
    its error. *)
Definition SUCCESS_FIELDS : list string :=
  ["policy_name"; "diagnosis"; "treatment_type"; "coverage_status";
   "feasibility_score"; "severity_requirements"; "waiting_period";
   "exclusions_applicable"; "risk_flags"; "required_documents";
   "analysis_summary"; "chunks_used"].

Definition is_error_result (res : claim_result) : Prop :=
  (∃ msg, msg ≠ "" ∧ res !! "error" = Some (JVal (PStr msg)))
  ∧ Forall (λ k, res !! k = None) SUCCESS_FIELDS.


(** ** Collaborators and the pipeline

    The vector store, the embedder and the language model are reached through
    calls whose replies the pipeline cannot predict: a program is a tree of
    calls, and an environment may answer each call with a value or with an
    exception.  The embedding vectors are opaque to the pipeline, and the
    system prompt is product text: both are parameters. *)

Section Pipeline.

Variable vector : Type.
Variable GROUNDED_CLAIM_SYSTEM : string.

Inductive call : Type :=
| get_catalog_policy (policy_id : string)
| get_policy_by_id (policy_id : string)
| list_catalog_policies
| find_uploaded_for_insurer (insurer : pyval)
| embed_text (text : string)
| semantic_search (embedding : vector) (policy_id : pyval) (top_k : nat)
| section_search (embedding : vector) (policy_id : pyval)
    (sections : list string) (top_k : nat)
| keyword_search (query : string) (policy_id : pyval) (top_k : nat)
| rrf_fusion (semantic keyword : list dict) (top_k : nat)
| chat_json (system user : string) (temperature : Z).

Definition reply (c : call) : Type :=
  match c with
  | get_catalog_policy _ | get_policy_by_id _ | find_uploaded_for_insurer _ =>
      option dict
  | list_catalog_policies => list dict
  | embed_text _ => vector
  | semantic_search _ _ _ | section_search _ _ _ _ | keyword_search _ _ _
  | rrf_fusion _ _ _ => list dict
  | chat_json _ _ _ => gmap string jsonval
  end.

Inductive prog (R : Type) : Type :=
| Ret (r : R)
| Throw (e : exn)
| Vis (c : call) (k : outcome (reply c) → prog R).
Arguments Ret {R} r.
Arguments Throw {R} e.
Arguments Vis {R} c k.

Fixpoint prog_bind {A B} (f : A → prog B) (p : prog A) : prog B :=
  match p with
  | Ret a => f a
  | Throw e => Throw e
  | Vis c k => Vis c (λ o, prog_bind f (k o))
  end.

#[global] Instance prog_ret : MRet prog := λ _ a, Ret a.
#[global] Instance prog_mbind : MBind prog := λ _ _ f p, prog_bind f p.

(** A call whose exception propagates, and a call inside [try]. *)
Definition perform (c : call) : prog (reply c) :=
  Vis c (λ o, match o with Returns x => Ret x | Raises e => Throw e end).

Definition attempt (c : call) : prog (outcome (reply c)) := Vis c Ret.

Definition lift {A} (o : outcome A) : prog A :=
  match o with Returns a => Ret a | Raises e => Throw e end.

(** One call with the answer it got. *)
Inductive event : Type := Ev (c : call) (o : outcome (reply c)).

(** An environment answers calls, threading a state of its own. *)
Definition world (S : Type) : Type := ∀ c : call, S → outcome (reply c) * S.

Fixpoint run {S R} (w : world S) (p : prog R) (s : S) : outcome R * list event * S :=
  match p with
  | Ret r => (Returns r, [], s)
  | Throw e => (Raises e, [], s)
  | Vis c k =>
      let '(o, s1) := w c s in
      let '(r, t, s2) := run w (k o) s1 in
      (r, Ev c o :: t, s2)
  end.

(** [exec p t r]: some environment makes [p] issue the calls of [t], get the
    answers of [t], and end with [r]. *)
Fixpoint exec {R} (p : prog R) (t : list event) (r : outcome R) : Prop :=
  match p with
  | Ret x => t = [] ∧ r = Returns x
  | Throw e => t = [] ∧ r = Raises e
  | Vis c k => ∃ o t', t = Ev c o :: t' ∧ exec (k o) t' r
  end.

(** Steps 2 to 10 of [run_claim_check], once the policy is resolved. *)
Definition claim_check_steps (condition treatment_type : string)
    (policy : dict) (policy_name search_policy_id : pyval) : prog claim_result :=
  (* Step 2: embed the condition query *)
  let query_text := condition +:+ " " +:+ treatment_type in
  q ← attempt (embed_text query_text);
  match q with
  | Raises e => Ret (error_result (embedding_failed_message e))
  | Returns query_embedding =>
  cov ← attempt (embed_text "inpatient hospitalization benefit covered illness treatment");
  let coverage_embedding :=
    match cov with Returns v => v | Raises _ => query_embedding end in
  (* Steps 3 to 6: the four retrievals *)
  sem_chunks ← perform (semantic_search query_embedding search_policy_id 6);
  cov_chunks ← perform (semantic_search coverage_embedding search_policy_id 4);
  sec_chunks ← perform (section_search query_embedding search_policy_id CLAIM_SECTIONS 4);
  kw_chunks ← perform (keyword_search condition search_policy_id 10);
  (* Step 7: fusion, then the guard *)
  let combined_sem := _dedupe (sem_chunks ++ cov_chunks ++ sec_chunks) in
  fused ← perform (rrf_fusion combined_sem kw_chunks 10);
  match fused with
  | [] => Ret (error_result (no_evidence_message condition))
  | _ :: _ =>
  (* Step 8 *)
  context_block ← lift (_build_context_block fused);
  (* Step 9 *)
  let user_prompt := user_prompt_text context_block condition treatment_type in
  analysis ← perform (chat_json GROUNDED_CLAIM_SYSTEM user_prompt 0);
  let coverage_status := normalize_status analysis in
  let severity_requirements := j_or (jget analysis "severity_requirements") (JList []) in
  let waiting_period := j_or (jget analysis "waiting_period") (JVal (PStr "")) in
  let exclusions_applicable := j_or (jget analysis "exclusions_applicable") (JList []) in
  let risk_flags := j_or (jget analysis "risk_flags") (JList []) in
  let required_documents := j_or (jget analysis "required_documents") (JList []) in
  let analysis_summary :=
    j_or (jget analysis "analysis_summary")
      (JVal (PStr "Analysis could not be completed from available context.")) in
  (* Step 10 *)
  feasibility_score ←
    lift (compute_claim_score coverage_status exclusions_applicable risk_flags policy);
  Ret (success_result policy_name condition treatment_type coverage_status
         feasibility_score severity_requirements waiting_period exclusions_applicable
         risk_flags required_documents analysis_summary (length fused))
  end
  end.

Definition run_claim_check (policy_id condition treatment_type : string)
    : prog claim_result :=
  (* Step 1: catalog policy or uploaded policy *)
  catalog_policy ← perform (get_catalog_policy policy_id);
  match record catalog_policy with
  | Some policy =>
      let policy_name := py_or (get policy "name") (PStr "Unknown Policy") in
      uploaded_match ←
        perform (find_uploaded_for_insurer (get_or policy "insurer" (PStr "")));
      match record uploaded_match with
      | None =>
          Ret (error_result
                 (no_document_message policy_name (get_or policy "insurer" (PStr ""))))
      | Some uploaded_match =>
          match uploaded_match !! "id" with
          | None => Throw (Exn KeyError "")
          | Some search_policy_id =>
              claim_check_steps condition treatment_type policy policy_name
                search_policy_id
          end
      end
  | None =>
      uploaded ← perform (get_policy_by_id policy_id);
      match record uploaded with
      | None => Ret (error_result "Policy not found.")
      | Some uploaded =>
          let policy_name := py_or (get uploaded "user_label") (PStr "Unknown Policy") in
          let search_policy_id := PStr policy_id in
          all_catalog ← perform list_catalog_policies;
          policy ← lift (enrich_uploaded uploaded all_catalog);
          claim_check_steps condition treatment_type policy policy_name search_policy_id
      end
  end.

End Pipeline.

Arguments get_catalog_policy {vector} policy_id.
Arguments get_policy_by_id {vector} policy_id.
Arguments list_catalog_policies {vector}.
Arguments find_uploaded_for_insurer {vector} insurer.
Arguments embed_text {vector} text.
Arguments semantic_search {vector} embedding policy_id top_k.
Arguments section_search {vector} embedding policy_id sections top_k.
Arguments keyword_search {vector} query policy_id top_k.
Arguments rrf_fusion {vector} semantic keyword top_k.
Arguments chat_json {vector} system user temperature.
Arguments Ret {vector R} r.
Arguments Throw {vector R} e.
Arguments Vis {vector R} c k.
Arguments Ev {vector} c o.
Arguments run {vector S R} w p s.
Arguments exec {vector R} p t r.
Arguments perform {vector} c.
Arguments attempt {vector} c.
Arguments lift {vector A} o.
Arguments prog_bind {vector A B} f p.

(** ** Reading a trace *)

Section Trace.

Context {vector : Type}.

Definition ev_call (e : event vector) : call vector :=
  match e with Ev c _ => c end.

Definition ev_raised (e : event vector) : option exn :=
  match e with
  | Ev _ (Raises x) => Some x
  | Ev _ (Returns _) => None
  end.

(** The document a retrieval call searches. *)
Definition search_target (c : call vector) : option pyval :=
  match c with
  | semantic_search _ doc _ | section_search _ doc _ _ | keyword_search _ doc _ =>
      Some doc
  | _ => None
  end.

Definition is_chat_json (c : call vector) : bool :=
  match c with chat_json _ _ _ => true | _ => false end.

Definition is_fusion (c : call vector) : bool :=
  match c with rrf_fusion _ _ _ => true | _ => false end.

(** The record a lookup call was answered with, if it was answered with one
    that counts as true. *)
Definition ev_record (e : event vector) : option dict :=
  match e with
  | Ev c o =>
      match c return outcome (reply vector c) → option dict with
      | get_catalog_policy _ | get_policy_by_id _ | find_uploaded_for_insurer _ =>
          λ o, match o with Returns d => record d | Raises _ => None end
      | _ => λ _, None
      end o
  end.

(** A lookup call answered without a record ([None] or an empty one). *)
Definition ev_absent (e : event vector) : bool :=
  match e with
  | Ev c o =>
      match c return outcome (reply vector c) → bool with
      | get_catalog_policy _ | get_policy_by_id _ | find_uploaded_for_insurer _ =>
          λ o, match o with
               | Returns d => bool_decide (record d = None)
               | Raises _ => false
               end
      | _ => λ _, false
      end o
  end.

(** The chunks a retrieval call was answered with. *)
Definition ev_retrieved (e : event vector) : option (list dict) :=
  match e with
  | Ev c o =>
      match c return outcome (reply vector c) → option (list dict) with
      | semantic_search _ _ _ | section_search _ _ _ _ | keyword_search _ _ _ =>
          λ o, match o with Returns l => Some l | Raises _ => None end
      | _ => λ _, None
      end o
  end.

(** The fused set a fusion call was answered with. *)
Definition ev_fused (e : event vector) : option (list dict) :=
  match e with
  | Ev c o =>
      match c return outcome (reply vector c) → option (list dict) with
      | rrf_fusion _ _ _ =>
          λ o, match o with Returns l => Some l | Raises _ => None end
      | _ => λ _, None
      end o
  end.

Definition ev_fused_empty (e : event vector) : bool :=
  match ev_fused e with Some [] => true | _ => false end.

(** The text of an embedding call and its answer. *)
Definition ev_embed (e : event vector) : option (string * outcome vector) :=
  match e with
  | Ev c o =>
      match c return outcome (reply vector c) → option (string * outcome vector) with
      | embed_text text => λ o, Some (text, o)
      | _ => λ _, None
      end o
  end.


(** The two lists handed to a fusion call. *)
Definition fusion_inputs (c : call vector) : option (list dict * list dict) :=
  match c with
  | rrf_fusion semantic keyword _ => Some (semantic, keyword)
  | _ => None
  end.

(** The user prompt handed to the analysis call. *)
Definition chat_prompt (c : call vector) : option string :=
  match c with
  | chat_json _ user _ => Some user
  | _ => None
  end.





(** What the pipeline needs of an answer to finish without an exception: only
    an embedding call may fail; the records that feed the scoring have typed
    scoring fields; insurers are text; the document found for an insurer has
    an identifier; fused chunks have a content and a textual section tag; the
    risk flags of the analysis have a length. *)
Definition textual_or_absent (d : dict) (k : string) : bool :=
  match d !! k with
  | None | Some (PStr _) => true
  | Some _ => false
  end.

Definition chunk_renders (c : dict) : bool :=
  bool_decide (is_Some (c !! "content")) && textual_or_absent c "section_type".



End Trace.

(** ** The metadata lookup

    Catalog first, then the uploaded policies; the empty record when neither
    knows the identifier. *)

Definition _get_policy_metadata {vector : Type} (policy_id : string) : prog vector dict :=
  policy ← perform (get_catalog_policy policy_id);
  match record policy with
  | Some policy => Ret policy
  | None =>
      uploaded ← perform (get_policy_by_id policy_id);
      Ret (default ∅ (record uploaded))
  end.

(** ** Further readings of a trace *)

Section TraceReadings.
Context {vector : Type}.

(** The reply an analysis call was answered with. *)
Definition ev_analysis (e : event vector) : option (gmap string jsonval) :=
  match e with
  | Ev c o =>
      match c return outcome (reply vector c) → option (gmap string jsonval) with
      | chat_json _ _ _ =>
          λ o, match o with Returns a => Some a | Raises _ => None end
      | _ => λ _, None
      end o
  end.

(** The catalog a listing call was answered with. *)
Definition ev_listing (e : event vector) : option (list dict) :=
  match e with
  | Ev c o =>
      match c return outcome (reply vector c) → option (list dict) with
      | list_catalog_policies =>
          λ o, match o with Returns l => Some l | Raises _ => None end
      | _ => λ _, None
      end o
  end.

(** The policy record a run scores with: the catalog record when the first
    lookup found one, else the upload found by the second lookup, enriched
    from the catalog the third call listed. *)
Definition scoring_policy (t : list (event vector)) : option dict :=
  match t with
  | e0 :: rest =>
      match ev_record e0 with
      | Some policy => Some policy
      | None =>
          match rest with
          | e1 :: e2 :: _ =>
              match ev_record e1, ev_listing e2 with
              | Some uploaded, Some all_catalog =>
                  match enrich_uploaded uploaded all_catalog with
                  | Returns policy => Some policy
                  | Raises _ => None
                  end
              | _, _ => None
              end
          | _ => None
          end
      end
  | [] => None
  end.

(** What the identity resolution reads of a call: the call, the record it
    was answered with, the exception it raised. *)
Definition ev_summary (e : event vector) : call vector * option dict * option exn :=
  (ev_call e, ev_record e, ev_raised e).

(** The two lists and the size handed to a fusion call. *)
Definition fusion_call (c : call vector) : option (list dict * list dict * nat) :=
  match c with
  | rrf_fusion semantic keyword top_k => Some (semantic, keyword, top_k)
  | _ => None
  end.

(** Every fusion call of the trace is answered, and as [rrf_fusion_spec]
    answers it. *)
Definition fusion_as_specified (t : list (event vector)) : Prop :=
  omap ev_fused t
  = omap (λ e, (λ x, rrf_fusion_spec x.1.1 x.1.2 x.2) <$> fusion_call (ev_call e)) t.

End TraceReadings.

(** ** A scripted environment

    A stateless environment given by a table of answers; the embedding of a
    text is stood for by the text itself, and fusion answers as
    [rrf_fusion_spec] does. *)

Record scenario : Type := Scenario {
  sc_catalog : option dict;
  sc_uploaded : option dict;
  sc_all_catalog : list dict;
  sc_insurer_document : option dict;
  sc_embed : string → outcome string;
  sc_semantic : list dict;
  sc_section : list dict;
  sc_keyword : list dict;
  sc_analysis : outcome (gmap string jsonval)
}.

Definition scenario_world (sc : scenario) : world string unit :=
  λ c s,
    (match c return outcome (reply string c) with
     | get_catalog_policy _ => Returns (sc_catalog sc)
     | get_policy_by_id _ => Returns (sc_uploaded sc)
     | list_catalog_policies => Returns (sc_all_catalog sc)
     | find_uploaded_for_insurer _ => Returns (sc_insurer_document sc)
     | embed_text text => sc_embed sc text
     | semantic_search _ _ top_k => Returns (take top_k (sc_semantic sc))
     | section_search _ _ _ top_k => Returns (take top_k (sc_section sc))
     | keyword_search _ _ top_k => Returns (take top_k (sc_keyword sc))
     | rrf_fusion semantic keyword top_k =>
         Returns (rrf_fusion_spec semantic keyword top_k)
     | chat_json _ _ _ => sc_analysis sc
     end, s).

Definition play (sc : scenario) (policy_id condition treatment_type : string)
    : outcome claim_result * list (event string) :=
  (run (scenario_world sc)
     (run_claim_check string "system prompt" policy_id condition treatment_type) ()).1.

(** ** Sample data *)

Definition mk_chunk (id section : string) (page : Z) (content : string) : dict :=
  {[ "id" := PStr id; "section_type" := PStr section;
     "page_number" := PInt page; "content" := PStr content ]}.

Definition chunk_hospital : dict :=
  mk_chunk "c1" "coverage" 3 "Inpatient hospitalisation is covered.".
Definition chunk_cosmetic : dict :=
  mk_chunk "c2" "exclusions" 9 "Cosmetic surgery is excluded.".
(** A chunk as a keyword search may return it: no identifier. *)
Definition chunk_anonymous : dict :=
  {[ "content" := PStr "Knee replacement is payable after 24 months." ]}.

Definition star_upload : dict :=
  {[ "id" := PStr "u1"; "user_label" := PStr "My Star plan";
     "insurer" := PStr "Star Health"; "co_pay_percent" := PInt 20 ]}.

Definition star_catalog : dict :=
  {[ "name" := PStr "Star Comprehensive";
     "insurer" := PStr "Star Health and Allied Insurance";
     "waiting_period_preexisting_years" := PInt 3; "co_pay_percent" := PInt 10;
     "room_rent_limit" := PStr "No limit" ]}.

Definition hdfc_catalog : dict :=
  {[ "name" := PStr "Optima Secure"; "insurer" := PStr "HDFC ERGO";
     "waiting_period_preexisting_years" := PInt 2; "co_pay_percent" := PInt 0;
     "room_rent_limit" := PStr "1% of sum insured" ]}.

Definition sample_analysis : gmap string jsonval :=
  {[ "coverage_status" := JVal (PStr "partially_covered");
     "waiting_period" := JVal (PStr "24 months");
     "risk_flags" := JList [PStr "waiting_period_active"];
     "analysis_summary" := JVal (PStr "Payable after the waiting period.") ]}.


(** An uploaded policy with indexed clauses; every collaborator answers. *)
Definition uploaded_scenario : scenario :=
  {| sc_catalog := None;
     sc_uploaded := Some star_upload;
     sc_all_catalog := [hdfc_catalog; star_catalog];
     sc_insurer_document := None;
     sc_embed := λ text, Returns text;
     sc_semantic := [chunk_hospital; chunk_cosmetic];
     sc_section := [chunk_cosmetic];
     sc_keyword := [chunk_anonymous];
     sc_analysis := Returns sample_analysis |}.

(** The same policy, with nothing indexed. *)
Definition unindexed_scenario : scenario :=
  {| sc_catalog := None;
     sc_uploaded := Some star_upload;
     sc_all_catalog := [hdfc_catalog; star_catalog];
     sc_insurer_document := None;
     sc_embed := λ text, Returns text;
     sc_semantic := [];
     sc_section := [];
     sc_keyword := [];
     sc_analysis := Returns sample_analysis |}.

(** A catalog policy whose insurer has no uploaded document. *)
Definition catalog_scenario : scenario :=
  {| sc_catalog := Some hdfc_catalog;
     sc_uploaded := None;
     sc_all_catalog := [hdfc_catalog; star_catalog];
     sc_insurer_document := None;
     sc_embed := λ text, Returns text;
     sc_semantic := [chunk_hospital];
     sc_section := [];
     sc_keyword := [];
     sc_analysis := Returns sample_analysis |}.



(** The language model is down. *)
Definition analysis_down_scenario : scenario :=
  {| sc_catalog := None;
     sc_uploaded := Some star_upload;
     sc_all_catalog := [];
     sc_insurer_document := None;
     sc_embed := λ text, Returns text;
     sc_semantic := [chunk_hospital];
     sc_section := [];
     sc_keyword := [];
     sc_analysis := Raises (Exn OtherError "service unavailable") |}.

Definition sample_check : prog string claim_result :=
  run_claim_check string "system prompt" "u1" "knee replacement" "surgery".

Definition uploaded_run := play uploaded_scenario "u1" "knee replacement" "surgery".
Definition unindexed_run := play unindexed_scenario "u1" "knee replacement" "surgery".
Definition catalog_run := play catalog_scenario "optima" "knee replacement" "surgery".
Definition analysis_down_run :=
  play analysis_down_scenario "u1" "knee replacement" "surgery".

(** A catalog policy whose insurer has an uploaded, indexed document. *)
Definition indexed_catalog_scenario : scenario :=
  {| sc_catalog := Some star_catalog;
     sc_uploaded := None;
     sc_all_catalog := [hdfc_catalog; star_catalog];
     sc_insurer_document := Some star_upload;
     sc_embed := λ text, Returns text;
     sc_semantic := [chunk_hospital; chunk_cosmetic];
     sc_section := [chunk_cosmetic];
     sc_keyword := [chunk_hospital];
     sc_analysis := Returns sample_analysis |}.

(** An identifier that neither table knows. *)
Definition unknown_policy_scenario : scenario :=
  {| sc_catalog := None;
     sc_uploaded := None;
     sc_all_catalog := [hdfc_catalog; star_catalog];
     sc_insurer_document := None;
     sc_embed := λ text, Returns text;
     sc_semantic := [];
     sc_section := [];
     sc_keyword := [];
     sc_analysis := Returns sample_analysis |}.

Definition indexed_catalog_run :=
  play indexed_catalog_scenario "star-comprehensive" "knee replacement" "surgery".
Definition unknown_policy_run :=
  play unknown_policy_scenario "u9" "knee replacement" "surgery".

(** A run of the metadata lookup in a scripted environment. *)
Definition metadata_run (sc : scenario) (policy_id : string)
    : outcome dict * list (event string) :=
  (run (scenario_world sc) (_get_policy_metadata policy_id) ()).1.

Arguments error_result : simpl never.
Arguments success_result : simpl never.
Arguments no_evidence_message : simpl never.
Arguments no_document_message : simpl never.
Arguments embedding_failed_message : simpl never.
Arguments user_prompt_text : simpl never.
Arguments _dedupe : simpl never.
Arguments _build_context_block : simpl never.
Arguments compute_claim_score : simpl never.
Arguments enrich_uploaded : simpl never.
Arguments rrf_fusion_spec : simpl never.
Arguments record : simpl never.
Arguments normalize_status : simpl never.
Arguments str_in : simpl never.
Arguments py_str : simpl never.

(* ================================================================== *)
(** * Properties *)

(** ** Scoring *)

Lemma py_le_number (d : dict) (k : string) (dflt n : Z) :
  numeric_or_absent d k = true →
  py_le (get_or d k (PInt dflt)) n = Returns (field_number d k dflt <=? n).
Proof.
  unfold numeric_or_absent, get_or, field_number, py_le.
  destruct (d !! k) as [v|]; simpl; [|done].
  intros [z Hz]%bool_decide_eq_true. by rewrite Hz.
Qed.

Lemma py_gt_number (d : dict) (k : string) (dflt n : Z) :
  numeric_or_absent d k = true →
  py_gt (get_or d k (PInt dflt)) n = Returns (n <? field_number d k dflt).
Proof.
  unfold numeric_or_absent, get_or, field_number, py_gt.
  destruct (d !! k) as [v|]; simpl; [|done].
  intros [z Hz]%bool_decide_eq_true. by rewrite Hz.
Qed.

Lemma room_text_value (d : dict) (k : string) :
  text_or_falsy d k = true →
  py_or (get d k) (PStr "") = PStr (field_text d k).
Proof.
  unfold text_or_falsy, get, field_text, py_or.
  destruct (d !! k) as [[| b | z | s]|]; simpl; try done.
  - by intros ->%negb_true_iff.
  - by intros ->%negb_true_iff.
  - destruct (String.eqb s "") eqn:E; simpl; [|done].
    by apply String.eqb_eq in E as ->.
Qed.

Lemma lower_eqb_empty (s : string) : String.eqb (lower s) "" = String.eqb s "".
Proof. by destruct s. Qed.

Lemma jtruthy_size (v : jsonval) :
  jtruthy (j_or v (JList [])) = negb (Nat.eqb (jsize v) 0).
Proof.
  unfold j_or.
  destruct v as [[| [] | z | [|c s]] | [|x l]]; simpl; try done.
  by destruct (z =? 0) eqn:E; simpl; rewrite ?E.
Qed.

Lemma py_len_size (v : jsonval) :
  has_length v = true → jsize v ≠ 0%nat →
  py_len (j_or v (JList [])) = Returns (Z.of_nat (jsize v)).
Proof.
  unfold j_or.
  destruct v as [[| [] | z | [|c s]] | [|x l]]; simpl; try done.
  by destruct (z =? 0) eqn:E; simpl; rewrite ?E.
Qed.

(** The score on any exclusions value, any risk-flags value with a length and
    typed metadata: the clamped sum of the table. *)
Lemma compute_claim_score_returns
    (status : string) (excl flags : jsonval) (policy : dict) :
  scoring_fields_typed policy = true →
  has_length flags = true →
  compute_claim_score status excl flags policy
  = Returns (clamp (rule_table_sum (lower status) (jsize excl) (jsize flags)
       (field_number policy "waiting_period_preexisting_years" 4)
       (field_number policy "co_pay_percent" 0)
       (field_text policy "room_rent_limit"))).
Proof.
  unfold scoring_fields_typed.
  intros [[Hped Hco]%andb_true_iff Hroom]%andb_true_iff Hlen.
  unfold compute_claim_score.
  rewrite !(py_le_number _ _ _ _ Hped), (py_gt_number _ _ _ _ Hco),
    (room_text_value _ _ Hroom), !jtruthy_size.
  unfold rule_table_sum, coverage_base, ped_wait_bonus, exclusions_delta,
    risk_flags_delta, co_pay_delta, room_rent_delta, clamp, py_contains, py_lower.
  set (ped := field_number policy "waiting_period_preexisting_years" 4).
  set (co := field_number policy "co_pay_percent" 0).
  set (room := field_text policy "room_rent_limit").
  set (st := lower status).
  assert (Hflags : jsize flags ≠ 0%nat →
    py_len (j_or flags (JList [])) = Returns (Z.of_nat (jsize flags)))
    by (by apply py_len_size).
  revert Hflags. generalize (py_len (j_or flags (JList []))).
  generalize (jsize flags). generalize (jsize excl). intros ne nf len Hflags.
  assert (Hbase : ∀ a b : bool,
    (if a then 0 + 50 else if b then 0 + 25 else 0)
    = (if a then 50 else if b then 25 else 0)) by (by intros [] []).
  cbn [mbind outcome_bind mret outcome_ret truthy str_in_tuple existsb].
  rewrite Hbase, lower_eqb_empty.
  generalize (if String.eqb st "covered" then 50
              else if String.eqb st "partially_covered" then 25 else 0).
  intros base.
  destruct nf as [|nf]; [clear Hflags|rewrite Hflags by done; clear Hflags].
  all: destruct (String.eqb room "") eqn:Er.
  all: try (apply String.eqb_eq in Er; rewrite Er).
  all: try (rewrite !orb_false_r;
    generalize (String.eqb (lower room) "no limit"
                || (String.eqb (lower room) "no sub-limits"
                    || String.eqb (lower room) "no restriction"));
    intros named).
  all: try (destruct named).
  all: destruct (ped <=? 1), (ped <=? 2), ne, (0 <? co), (str_in "%" room);
      simpl; f_equal; lia.
Qed.

Lemma compute_claim_score_unclamped
    (status : string) (excl flags : list pyval) (policy : dict) :
  scoring_fields_typed policy = true →
  compute_claim_score status (JList excl) (JList flags) policy
  = Returns (clamp (rule_table_sum (lower status) (length excl) (length flags)
       (field_number policy "waiting_period_preexisting_years" 4)
       (field_number policy "co_pay_percent" 0)
       (field_text policy "room_rent_limit"))).
Proof. intros H. by apply (compute_claim_score_returns status (JList excl) (JList flags)). Qed.

Lemma rule_table_sum_upper (status : string) (ne nf : nat) (ped co : Z) (room : string) :
  rule_table_sum status ne nf ped co room ≤ 95.
Proof.
  unfold rule_table_sum, coverage_base, ped_wait_bonus, exclusions_delta,
    risk_flags_delta, co_pay_delta, room_rent_delta.
  repeat case_match; lia.
Qed.

(** C1 (as amended).  On a status text, two lists and metadata whose scoring
    fields are typed, the score is the sum of the rule-table deltas, the
    coverage base being read from the lower-cased status, clamped to [0,100]:
    base 50/25/0; pre-existing-disease wait bonus 20 for at most one year, 12
    for at most two, with four years assumed when the field is absent; +15
    without exclusions, -25 with at least one; +10 without risk flags,
    -min(5n,20) with n of them; -5 for a positive co-pay (0 when absent); -10
    for a room-rent limit containing a percent sign, -5 for any other
    non-empty limit that is not one of the three unlimited wordings. *)
Theorem compute_claim_score_rule_table
    (status : string) (excl flags : list pyval) (policy : dict) :
  scoring_fields_typed policy = true →
  ∃ score : Z,
    compute_claim_score status (JList excl) (JList flags) policy = Returns score
    ∧ score = clamp (rule_table_sum (lower status) (length excl) (length flags)
                (field_number policy "waiting_period_preexisting_years" 4)
                (field_number policy "co_pay_percent" 0)
                (field_text policy "room_rent_limit"))
    ∧ 0 ≤ score ≤ 100.
Proof.
  intros Hty. eexists. split; [by apply compute_claim_score_unclamped|].
  split; [done|]. unfold clamp. lia.
Qed.

Lemma compute_claim_score_rule_table_witness :
  scoring_fields_typed
    {[ "waiting_period_preexisting_years" := PInt 1; "co_pay_percent" := PInt 0;
       "room_rent_limit" := PStr "No limit" ]} = true
  ∧ ∃ score : Z,
      compute_claim_score "covered" (JList []) (JList [])
        {[ "waiting_period_preexisting_years" := PInt 1; "co_pay_percent" := PInt 0;
           "room_rent_limit" := PStr "No limit" ]} = Returns score
      ∧ score = clamp (rule_table_sum (lower "covered") 0 0
                  (field_number {[ "waiting_period_preexisting_years" := PInt 1;
                                   "co_pay_percent" := PInt 0;
                                   "room_rent_limit" := PStr "No limit" ]}
                     "waiting_period_preexisting_years" 4)
                  (field_number {[ "waiting_period_preexisting_years" := PInt 1;
                                   "co_pay_percent" := PInt 0;
                                   "room_rent_limit" := PStr "No limit" ]}
                     "co_pay_percent" 0)
                  (field_text {[ "waiting_period_preexisting_years" := PInt 1;
                                 "co_pay_percent" := PInt 0;
                                 "room_rent_limit" := PStr "No limit" ]}
                     "room_rent_limit"))
      ∧ 0 ≤ score ≤ 100.
Proof.
  split; [vm_compute; reflexivity|].
  apply (compute_claim_score_rule_table "covered" [] []). vm_compute; reflexivity.
Defined.

(** The claim of C1 read on every status text and every dictionary fails
    twice.  An upper-case status earns the base of its lower-case spelling
    (the table, read literally, gives it no base); and a dictionary that
    holds the pre-existing-disease wait with the value [None] makes the call
    raise instead of falling back on four years. *)
Lemma compute_claim_score_off_table :
  (compute_claim_score "COVERED" (JList []) (JList []) ∅ = Returns 75
   ∧ clamp (rule_table_sum "COVERED" 0 0
              (field_number ∅ "waiting_period_preexisting_years" 4)
              (field_number ∅ "co_pay_percent" 0)
              (field_text ∅ "room_rent_limit")) = 25)
  ∧ compute_claim_score "covered" (JList []) (JList [])
      {[ "waiting_period_preexisting_years" := PNone ]} = Raises (Exn TypeError "").
Proof. repeat split; vm_compute; reflexivity. Qed.

(** The sibling lookup of the room-rent limit absorbs [None]; the two numeric
    lookups do not. *)
Lemma compute_claim_score_none_fields :
  compute_claim_score "covered" (JList []) (JList [])
    {[ "room_rent_limit" := PNone ]} = Returns 75
  ∧ compute_claim_score "covered" (JList []) (JList [])
      {[ "co_pay_percent" := PNone ]} = Raises (Exn TypeError "").
Proof. split; vm_compute; reflexivity. Qed.

(** C2 (as amended).  With everything else fixed and typed metadata,
    appending one risk flag never raises the score; and going from no
    exclusion to at least one never raises it either: the sum before clamping
    drops by 40 (from +15 to -25), so the score drops by exactly 40 whenever
    the lower score is still positive, and by at most 40 otherwise. *)
Theorem compute_claim_score_monotone
    (status : string) (excl flags : list pyval) (x e : pyval) (es : list pyval)
    (policy : dict) :
  scoring_fields_typed policy = true →
  (∃ a b : Z,
     compute_claim_score status (JList excl) (JList flags) policy = Returns a
     ∧ compute_claim_score status (JList excl) (JList (flags ++ [x])) policy = Returns b
     ∧ b ≤ a)
  ∧ (∃ a b : Z,
       compute_claim_score status (JList []) (JList flags) policy = Returns a
       ∧ compute_claim_score status (JList (e :: es)) (JList flags) policy = Returns b
       ∧ b ≤ a ≤ b + 40
       ∧ (0 < b → a = b + 40)).
Proof.
  intros Hty. split.
  - do 2 eexists. rewrite !compute_claim_score_unclamped by done.
    split; [done|]. split; [done|].
    rewrite length_app. cbn [length].
    unfold clamp, rule_table_sum, risk_flags_delta.
    replace (length flags + 1)%nat with (S (length flags)) by lia.
    destruct (length flags); lia.
  - do 2 eexists. rewrite !compute_claim_score_unclamped by done.
    split; [done|]. split; [done|].
    pose proof (rule_table_sum_upper (lower status) 0 (length flags)
      (field_number policy "waiting_period_preexisting_years" 4)
      (field_number policy "co_pay_percent" 0)
      (field_text policy "room_rent_limit")) as Hup.
    revert Hup. unfold clamp, rule_table_sum. cbn [length exclusions_delta]. lia.
Qed.

Lemma compute_claim_score_monotone_witness :
  scoring_fields_typed {[ "co_pay_percent" := PInt 10 ]} = true
  ∧ (∃ a b : Z,
       compute_claim_score "covered" (JList []) (JList [PStr "pre_auth_required"])
         {[ "co_pay_percent" := PInt 10 ]} = Returns a
       ∧ compute_claim_score "covered" (JList [])
           (JList ([PStr "pre_auth_required"] ++ [PStr "documentation_intensive"]))
           {[ "co_pay_percent" := PInt 10 ]} = Returns b
       ∧ b ≤ a)
  ∧ (∃ a b : Z,
       compute_claim_score "covered" (JList []) (JList [PStr "pre_auth_required"])
         {[ "co_pay_percent" := PInt 10 ]} = Returns a
       ∧ compute_claim_score "covered" (JList (PStr "Cosmetic surgery is excluded" :: []))
           (JList [PStr "pre_auth_required"])
           {[ "co_pay_percent" := PInt 10 ]} = Returns b
       ∧ b ≤ a ≤ b + 40
       ∧ (0 < b → a = b + 40)).
Proof.
  split; [vm_compute; reflexivity|].
  apply (compute_claim_score_monotone "covered" [] [PStr "pre_auth_required"]).
  vm_compute; reflexivity.
Defined.

(** The drop claimed in C2 for a first exclusion is 25; the code takes away
    the +15 of the empty case as well, which makes 40. *)
Lemma first_exclusion_costs_forty :
  compute_claim_score "covered" (JList []) (JList []) ∅ = Returns 75
  ∧ compute_claim_score "covered" (JList [PStr "Cosmetic surgery is excluded"])
      (JList []) ∅ = Returns 35
  ∧ 75 - 35 ≠ 25.
Proof. repeat split; try (vm_compute; reflexivity). lia. Qed.

(** ** Text and the context block *)

Lemma prefix_app (x b : string) : String.prefix x (x +:+ b) = true.
Proof.
  induction x as [|c x IH]; simpl; [by destruct b|].
  by destruct (ascii_dec c c).
Qed.

Lemma str_in_prefix (x b : string) : str_in x (x +:+ b) = true.
Proof.
  pose proof (prefix_app x b) as H.
  destruct (x +:+ b); unfold str_in; fold str_in; by rewrite H.
Qed.

Lemma str_in_app_r (x a b : string) : str_in x b = true → str_in x (a +:+ b) = true.
Proof.
  intros H. induction a as [|c a IH]; [done|].
  change (String c a +:+ b) with (String c (a +:+ b)).
  unfold str_in; fold str_in. rewrite IH. apply orb_true_r.
Qed.

Lemma str_in_middle (x a b : string) : str_in x (a +:+ x +:+ b) = true.
Proof. apply str_in_app_r, str_in_prefix. Qed.

Lemma context_block_nonempty (c : dict) (l : list dict) (ctx : string) :
  _build_context_block (c :: l) = Returns ctx → ctx ≠ "".
Proof.
  unfold _build_context_block. simpl. unfold context_part.
  destruct (py_upper _) as [sec|]; simpl; [|done].
  destruct (c !! "content") as [content|]; simpl; [|done].
  destruct (context_parts 2 l) as [parts|]; simpl; [|done].
  intros [= <-]. by destruct parts.
Qed.

(** ** Deduplication *)

Lemma py_eqb_key (a b : pyval) : py_eqb a b = bool_decide (py_key a = py_key b).
Proof.
  destruct a as [|[]|x|x], b as [|[]|y|y]; simpl;
    repeat case_bool_decide; try destruct (String.eqb_spec x y); congruence.
Qed.

Lemma id_in_key (cid : pyval) (seen : list pyval) :
  existsb (py_eqb cid) seen = true ↔ py_key cid ∈ py_key <$> seen.
Proof.
  induction seen as [|x seen IH]; simpl.
  - split; [done|]. by intros ?%elem_of_nil.
  - rewrite orb_true_iff, IH, py_eqb_key, bool_decide_eq_true, elem_of_cons. done.
Qed.

Lemma truthy_key (a b : pyval) : py_key a = py_key b → truthy a = truthy b.
Proof. destruct a as [|[]|x|x], b as [|[]|y|y]; simpl; intros; by simplify_eq. Qed.

Lemma dedupe_loop_cons (seen : list pyval) (c : dict) (rest : list dict) :
  dedupe_loop seen (c :: rest)
  = if has_id c && negb (existsb (py_eqb (get c "id")) seen)
    then c :: dedupe_loop (get c "id" :: seen) rest
    else dedupe_loop seen rest.
Proof. done. Qed.

(** Whether the loop keeps a chunk. *)
Lemma dedupe_keeps (seen : list pyval) (c : dict) :
  has_id c && negb (existsb (py_eqb (get c "id")) seen) = true
  ↔ has_id c = true ∧ chunk_key c ∉ py_key <$> seen.
Proof.
  rewrite andb_true_iff, negb_true_iff, <- not_true_iff_false, id_in_key. done.
Qed.

Lemma dedupe_loop_has_id (seen : list pyval) (chunks : list dict) :
  Forall (λ c, has_id c = true) (dedupe_loop seen chunks).
Proof.
  revert seen. induction chunks as [|c rest IH]; intros seen; [constructor|].
  rewrite dedupe_loop_cons.
  destruct (has_id c && _) eqn:E; [|apply IH].
  apply dedupe_keeps in E as [Hc _]. constructor; [done|apply IH].
Qed.

Lemma dedupe_loop_sublist (seen : list pyval) (chunks : list dict) :
  dedupe_loop seen chunks `sublist_of` chunks.
Proof.
  revert seen. induction chunks as [|c rest IH]; intros seen; [constructor|].
  rewrite dedupe_loop_cons.
  destruct (has_id c && _); [apply sublist_skip|apply sublist_cons]; apply IH.
Qed.

Lemma dedupe_loop_fresh (seen : list pyval) (chunks : list dict) (c : dict) :
  c ∈ dedupe_loop seen chunks → chunk_key c ∉ py_key <$> seen.
Proof.
  revert seen. induction chunks as [|c0 rest IH]; intros seen.
  - by intros ?%elem_of_nil.
  - rewrite dedupe_loop_cons. destruct (has_id c0 && _) eqn:E; [|apply IH].
    apply dedupe_keeps in E as [_ Hnew].
    intros [->|Hin]%elem_of_cons; [done|].
    apply IH in Hin. rewrite fmap_cons in Hin. set_solver.
Qed.

Lemma dedupe_loop_NoDup (seen : list pyval) (chunks : list dict) :
  NoDup (chunk_key <$> dedupe_loop seen chunks).
Proof.
  revert seen. induction chunks as [|c rest IH]; intros seen; [constructor|].
  rewrite dedupe_loop_cons. destruct (has_id c && _) eqn:E; [|apply IH].
  rewrite fmap_cons. constructor; [|apply IH].
  intros (d & Hk & Hd%dedupe_loop_fresh)%list_elem_of_fmap.
  apply Hd. rewrite fmap_cons, <- Hk. unfold chunk_key. set_solver.
Qed.

Lemma dedupe_loop_complete (seen : list pyval) (chunks : list dict) (c : dict) :
  c ∈ chunks → has_id c = true → chunk_key c ∉ py_key <$> seen →
  chunk_key c ∈ chunk_key <$> dedupe_loop seen chunks.
Proof.
  revert seen. induction chunks as [|c0 rest IH]; intros seen.
  - by intros ?%elem_of_nil.
  - intros Hin Hid Hnew. rewrite dedupe_loop_cons.
    destruct (has_id c0 && _) eqn:E.
    + rewrite fmap_cons.
      destruct (decide (chunk_key c = chunk_key c0)) as [->|Hne]; [set_solver|].
      apply elem_of_cons in Hin as [->|Hin]; [done|].
      apply elem_of_cons. right. apply IH; [done..|].
      rewrite fmap_cons. unfold chunk_key in *. set_solver.
    + apply elem_of_cons in Hin as [->|Hin]; [|by apply IH].
      apply not_true_iff_false in E. rewrite dedupe_keeps in E. tauto.
Qed.

(** Every kept chunk is the first chunk of the input with its identifier. *)
Lemma dedupe_loop_first (seen : list pyval) (chunks : list dict) (c : dict) :
  c ∈ dedupe_loop seen chunks →
  ∃ pre post, chunks = pre ++ c :: post
              ∧ Forall (λ d, chunk_key d ≠ chunk_key c) pre.
Proof.
  revert seen. induction chunks as [|c0 rest IH]; intros seen.
  - by intros ?%elem_of_nil.
  - rewrite dedupe_loop_cons. destruct (has_id c0 && _) eqn:E.
    + intros [->|Hin]%elem_of_cons; [by exists [], rest|].
      pose proof (dedupe_loop_fresh _ _ _ Hin) as Hfresh.
      destruct (IH _ Hin) as (pre & post & -> & Hpre).
      exists (c0 :: pre), post. split; [done|]. constructor; [|done].
      intros Hk. apply Hfresh. rewrite fmap_cons, <- Hk. unfold chunk_key. set_solver.
    + intros Hin.
      pose proof (dedupe_loop_fresh _ _ _ Hin) as Hfresh.
      pose proof (dedupe_loop_has_id seen rest) as Hids.
      rewrite Forall_forall in Hids. specialize (Hids _ Hin).
      destruct (IH _ Hin) as (pre & post & -> & Hpre).
      exists (c0 :: pre), post. split; [done|]. constructor; [|done].
      intros Hk. apply not_true_iff_false in E. apply E, dedupe_keeps.
      split; [|by rewrite Hk].
      unfold has_id in *. by rewrite (truthy_key _ _ Hk).
Qed.

(** The loop leaves a list alone that is already free of duplicates and of
    chunks without identifier. *)
Lemma dedupe_loop_fixed (seen : list pyval) (chunks : list dict) :
  Forall (λ c, has_id c = true) chunks →
  NoDup (chunk_key <$> chunks) →
  Forall (λ c, chunk_key c ∉ py_key <$> seen) chunks →
  dedupe_loop seen chunks = chunks.
Proof.
  revert seen. induction chunks as [|c rest IH]; intros seen; [done|].
  intros [Hc Hrest]%Forall_cons_1 Hnd [Hs Hseen]%Forall_cons_1.
  rewrite fmap_cons in Hnd. apply NoDup_cons in Hnd as [Hnew Hnd].
  rewrite dedupe_loop_cons.
  destruct (has_id c && _) eqn:E.
  - f_equal. apply IH; [done..|].
    rewrite Forall_forall in Hseen |- *. intros d Hd.
    rewrite fmap_cons. intros [Hk|Hin]%elem_of_cons; [|by eapply Hseen].
    apply Hnew. apply list_elem_of_fmap. exists d. split; [by symmetry|done].
  - apply not_true_iff_false in E. rewrite dedupe_keeps in E. tauto.
Qed.

(** Dropping the chunks without identifier beforehand changes nothing. *)
Lemma dedupe_loop_filter (seen : list pyval) (chunks : list dict) :
  dedupe_loop seen (List.filter has_id chunks) = dedupe_loop seen chunks.
Proof.
  revert seen. induction chunks as [|c rest IH]; intros seen; [done|].
  simpl List.filter. destruct (has_id c) eqn:Hc.
  - rewrite !dedupe_loop_cons, Hc. simpl. by rewrite !IH.
  - rewrite dedupe_loop_cons, Hc. simpl. apply IH.
Qed.

(** ** Fusion as the specification describes it *)

Lemma first_by_id_cons (seen : list pyval) (c : dict) (rest : list dict) :
  first_by_id seen (c :: rest)
  = if id_in (get c "id") seen then first_by_id seen rest
    else c :: first_by_id (get c "id" :: seen) rest.
Proof. done. Qed.

Lemma first_by_id_fresh (seen : list pyval) (chunks : list dict) (c : dict) :
  c ∈ first_by_id seen chunks → chunk_key c ∉ py_key <$> seen.
Proof.
  revert seen. induction chunks as [|c0 rest IH]; intros seen.
  - by intros ?%elem_of_nil.
  - rewrite first_by_id_cons. destruct (id_in _ seen) eqn:E; [apply IH|].
    apply not_true_iff_false in E. unfold id_in in E. rewrite id_in_key in E.
    intros [->|Hin]%elem_of_cons; [done|].
    apply IH in Hin. rewrite fmap_cons in Hin. set_solver.
Qed.

Lemma first_by_id_NoDup (seen : list pyval) (chunks : list dict) :
  NoDup (chunk_key <$> first_by_id seen chunks).
Proof.
  revert seen. induction chunks as [|c rest IH]; intros seen; [constructor|].
  rewrite first_by_id_cons. destruct (id_in _ seen); [apply IH|].
  rewrite fmap_cons. constructor; [|apply IH].
  intros (d & Hk & Hd%first_by_id_fresh)%list_elem_of_fmap.
  apply Hd. rewrite fmap_cons, <- Hk. unfold chunk_key. set_solver.
Qed.

Lemma first_by_id_sublist (seen : list pyval) (chunks : list dict) :
  first_by_id seen chunks `sublist_of` chunks.
Proof.
  revert seen. induction chunks as [|c rest IH]; intros seen; [constructor|].
  rewrite first_by_id_cons.
  destruct (id_in _ seen); [apply sublist_cons|apply sublist_skip]; apply IH.
Qed.

Lemma insert_by_score_perm (score : dict → Q) (c : dict) (sorted : list dict) :
  insert_by_score score c sorted ≡ₚ c :: sorted.
Proof.
  induction sorted as [|d rest IH]; simpl; [done|].
  destruct (negb _); [done|]. rewrite IH. apply Permutation_swap.
Qed.

Lemma sort_by_score_perm (score : dict → Q) (chunks acc : list dict) :
  foldl (λ sorted c, insert_by_score score c sorted) acc chunks ≡ₚ acc ++ chunks.
Proof.
  revert acc. induction chunks as [|c rest IH]; intros acc; simpl.
  - by rewrite app_nil_r.
  - rewrite IH, insert_by_score_perm. simpl. apply Permutation_middle.
Qed.

Lemma rrf_fusion_spec_perm (semantic keyword : list dict) (top_k : nat) :
  ∃ sorted, rrf_fusion_spec semantic keyword top_k = take top_k sorted
            ∧ sorted ≡ₚ first_by_id [] (semantic ++ keyword).
Proof. eexists. split; [done|]. apply (sort_by_score_perm _ _ []). Qed.

Lemma rrf_fusion_spec_NoDup (semantic keyword : list dict) (top_k : nat) :
  NoDup (chunk_key <$> rrf_fusion_spec semantic keyword top_k).
Proof.
  destruct (rrf_fusion_spec_perm semantic keyword top_k) as (sorted & -> & Hp).
  rewrite fmap_take. eapply sublist_NoDup; [|apply sublist_take].
  rewrite Hp. apply first_by_id_NoDup.
Qed.

Lemma rrf_fusion_spec_length (semantic keyword : list dict) (top_k : nat) :
  (length (rrf_fusion_spec semantic keyword top_k) ≤ top_k)%nat.
Proof.
  destruct (rrf_fusion_spec_perm semantic keyword top_k) as (sorted & -> & _).
  rewrite length_take. lia.
Qed.

Lemma rrf_fusion_spec_from_inputs (semantic keyword : list dict) (top_k : nat) (c : dict) :
  c ∈ rrf_fusion_spec semantic keyword top_k → c ∈ semantic ++ keyword.
Proof.
  destruct (rrf_fusion_spec_perm semantic keyword top_k) as (sorted & -> & Hp).
  intros Hin. eapply elem_of_sublist in Hin; [|apply sublist_take].
  rewrite Hp in Hin. eapply elem_of_sublist; [done|apply first_by_id_sublist].
Qed.

(** The order of a fused set. *)

Section FusedOrder.
Variable score : dict → Q.
Variable cands : list dict.

Lemma insert_by_score_sorted (c : dict) (sorted : list dict) :
  StronglySorted (by_score score cands) sorted →
  Forall (λ d, ranked_before cands d c) sorted →
  StronglySorted (by_score score cands) (insert_by_score score c sorted).
Proof.
  induction 1 as [|d rest Hrest IH Hd]; intros Hbefore; simpl.
  - repeat constructor.
  - apply Forall_cons_1 in Hbefore as [Hdc Hbefore].
    destruct (Qle_bool (score c) (score d)) eqn:E; simpl.
    + apply Qle_bool_iff in E. constructor; [by apply IH|].
      rewrite insert_by_score_perm. constructor; [|done].
      apply Qle_lteq in E as [Hlt|Heq]; [by left|].
      right. split; [by symmetry|done].
    + assert (Hlt : (score d < score c)%Q).
      { apply Qnot_le_lt. intros Hle. apply Qle_bool_iff in Hle. congruence. }
      constructor; [by constructor|].
      constructor; [by left|].
      eapply Forall_impl; [exact Hd|]. intros y [Hy|[Hy _]]; left.
      * by eapply Qlt_trans.
      * by rewrite <- Hy.
Qed.

Lemma sort_by_score_sorted (todo placed acc : list dict) :
  cands = placed ++ todo →
  acc ≡ₚ placed →
  StronglySorted (by_score score cands) acc →
  StronglySorted (by_score score cands) (foldl (λ sorted c, insert_by_score score c sorted) acc todo).
Proof.
  revert placed acc. induction todo as [|c todo IH]; intros placed acc Hc Hp Hs; [done|].
  simpl. apply (IH (placed ++ [c])).
  - by rewrite <- app_assoc.
  - rewrite insert_by_score_perm, Hp. apply Permutation_cons_append.
  - apply insert_by_score_sorted; [done|].
    apply Forall_forall. intros d Hd. rewrite Hp in Hd.
    apply list_elem_of_lookup_1 in Hd as [i Hi].
    exists i, (length placed). split; [by eapply lookup_lt_Some|].
    rewrite Hc. split; [by apply lookup_app_l_Some|by apply list_lookup_middle].
Qed.

Lemma by_score_antisymmetric (x y : dict) :
  NoDup cands → by_score score cands x y → by_score score cands y x → x = y.
Proof.
  intros Hnd [Hxy|[Hxy (i & j & Hij & Hi & Hj)]] [Hyx|[Hyx (i' & j' & Hij' & Hi' & Hj')]].
  - exfalso. eapply Qlt_irrefl, Qlt_trans; eassumption.
  - exfalso. rewrite Hyx in Hxy. by eapply Qlt_irrefl.
  - exfalso. rewrite Hxy in Hyx. by eapply Qlt_irrefl.
  - pose proof (NoDup_lookup _ _ _ _ Hnd Hi Hj').
    pose proof (NoDup_lookup _ _ _ _ Hnd Hj Hi'). lia.
Qed.

End FusedOrder.

Lemma sorted_candidates (semantic keyword : list dict) :
  StronglySorted (fused_order semantic keyword)
    (foldl (λ sorted c, insert_by_score (rrf_score 60 [semantic; keyword]) c sorted) []
       (first_by_id [] (semantic ++ keyword))).
Proof.
  apply (sort_by_score_sorted (rrf_score 60 [semantic; keyword])
           (first_by_id [] (semantic ++ keyword)) _ [] []); [done|done|constructor].
Qed.

Lemma rrf_fusion_spec_sorted (semantic keyword : list dict) (top_k : nat) :
  StronglySorted (fused_order semantic keyword) (rrf_fusion_spec semantic keyword top_k).
Proof.
  unfold rrf_fusion_spec.
  pose proof (sorted_candidates semantic keyword) as H.
  rewrite <- (take_drop top_k) in H. by apply StronglySorted_app_1_l in H.
Qed.

Lemma rrf_fusion_spec_unique (semantic keyword l : list dict) (top_k : nat) :
  l ≡ₚ first_by_id [] (semantic ++ keyword) →
  StronglySorted (fused_order semantic keyword) l →
  rrf_fusion_spec semantic keyword top_k = take top_k l.
Proof.
  intros Hp Hs. unfold rrf_fusion_spec. f_equal.
  apply (StronglySorted_unique_strong (fused_order semantic keyword)).
  - intros x y _ _. apply by_score_antisymmetric.
    eapply NoDup_fmap_1, first_by_id_NoDup.
  - apply sorted_candidates.
  - done.
  - by rewrite Hp, (sort_by_score_perm _ _ []).
Qed.

Lemma omap_fmap_option {A B C} (f : B → C) (g : A → option B) (l : list A) :
  omap (λ a, f <$> g a) l = f <$> omap g l.
Proof.
  induction l as [|a l IH]; [done|]. simpl. destruct (g a); simpl; [f_equal|]; exact IH.
Qed.

(** ** Enrichment *)

Lemma merge_field_lookup (cp policy : dict) (field k : string) :
  merge_field cp policy field !! k
  = if bool_decide (k = field) && is_none (get policy k) && negb (is_none (get cp k))
    then Some (get cp k) else policy !! k.
Proof.
  unfold merge_field.
  destruct (decide (k = field)) as [->|Hne].
  - rewrite (bool_decide_eq_true_2 (field = field)) by done.
    destruct (is_none (get cp field)), (is_none (get policy field)); simpl; try done.
    apply lookup_insert_eq.
  - rewrite (bool_decide_eq_false_2 (k = field)) by done.
    destruct (is_none (get cp field)), (is_none (get policy field)); simpl; try done.
    by rewrite lookup_insert_ne.
Qed.

Lemma merge_field_get (cp policy : dict) (field k : string) :
  get (merge_field cp policy field) k
  = if bool_decide (k = field) && is_none (get policy k) && negb (is_none (get cp k))
    then get cp k else get policy k.
Proof. unfold get at 1. rewrite merge_field_lookup. by destruct (_ && _). Qed.

Lemma merge_fields_lookup (cp : dict) (fields : list string) (policy : dict) (k : string) :
  foldl (merge_field cp) policy fields !! k
  = if bool_decide (k ∈ fields) && is_none (get policy k) && negb (is_none (get cp k))
    then Some (get cp k) else policy !! k.
Proof.
  revert policy. induction fields as [|f fields IH]; intros policy.
  - case_bool_decide as Hin; [by apply elem_of_nil in Hin|done].
  - simpl foldl. rewrite IH, merge_field_get, merge_field_lookup.
    destruct (decide (k = f)) as [->|Hne].
    + rewrite (bool_decide_eq_true_2 (f = f)) by done.
      rewrite (bool_decide_eq_true_2 (f ∈ f :: fields)) by set_solver.
      destruct (is_none (get policy f)) eqn:Ep, (is_none (get cp f)) eqn:Ec; simpl;
        rewrite ?Ep, ?Ec, ?andb_false_r; done.
    + rewrite (bool_decide_eq_false_2 (k = f)) by done. simpl.
      assert (bool_decide (k ∈ f :: fields) = bool_decide (k ∈ fields)) as ->; [|done].
      apply bool_decide_ext. set_solver.
Qed.

Lemma insurer_lowered (d : dict) :
  text_or_falsy d "insurer" = true →
  py_lower (py_or (get d "insurer") (PStr "")) = Returns (insurer_name d).
Proof. intros H. by rewrite (room_text_value _ _ H). Qed.

Lemma enrich_from_catalog_find (ins : string) (policy : dict) (all_catalog : list dict) :
  Forall (λ cp, text_or_falsy cp "insurer" = true) all_catalog →
  enrich_from_catalog ins policy all_catalog
  = Returns match List.find (λ cp, insurer_matches ins (insurer_name cp)) all_catalog with
            | Some cp => foldl (merge_field cp) policy SCORING_FIELDS
            | None => policy
            end.
Proof.
  induction 1 as [|cp rest Hcp _ IH]; [done|].
  cbn [enrich_from_catalog List.find]. rewrite (insurer_lowered _ Hcp).
  cbn [mbind outcome_bind]. fold (insurer_matches ins (insurer_name cp)).
  by destruct (insurer_matches _ _).
Qed.

Lemma enrich_uploaded_find (uploaded : dict) (all_catalog : list dict) :
  text_or_falsy uploaded "insurer" = true →
  Forall (λ cp, text_or_falsy cp "insurer" = true) all_catalog →
  enrich_uploaded uploaded all_catalog
  = Returns match List.find (λ cp, insurer_matches (insurer_name uploaded)
                                     (insurer_name cp)) all_catalog with
            | Some cp => foldl (merge_field cp) uploaded SCORING_FIELDS
            | None => uploaded
            end.
Proof.
  intros Hup Hcat. unfold enrich_uploaded. rewrite (insurer_lowered _ Hup).
  cbn [mbind outcome_bind]. by apply enrich_from_catalog_find.
Qed.

(** C5 (as amended).  On an uploaded record and a catalog whose insurers are
    text (or absent), enrichment returns a record; the donor is the first
    catalog record, in list order, whose lower-cased insurer name contains the
    lower-cased uploaded name or is contained in it, provided the uploaded
    name is not empty; each of the six scoring fields gets the donor's value
    exactly when the uploaded record has none and the donor has one; every
    other field, and every field the uploaded record already has, is left as
    it is; without a donor the record is unchanged. *)
Theorem enrichment_copies_missing_fields (uploaded : dict) (all_catalog : list dict) :
  text_or_falsy uploaded "insurer" = true →
  Forall (λ cp, text_or_falsy cp "insurer" = true) all_catalog →
  ∃ policy,
    enrich_uploaded uploaded all_catalog = Returns policy
    ∧ match List.find (λ cp, insurer_matches (insurer_name uploaded) (insurer_name cp))
              all_catalog with
      | Some cp =>
          ∀ field, policy !! field =
            if bool_decide (field ∈ SCORING_FIELDS) && is_none (get uploaded field)
               && negb (is_none (get cp field))
            then Some (get cp field) else uploaded !! field
      | None => policy = uploaded
      end
    ∧ (∀ field, is_none (get uploaded field) = false →
                policy !! field = uploaded !! field).
Proof.
  intros Hup Hcat. eexists. split; [by apply enrich_uploaded_find|].
  destruct (List.find _ all_catalog) as [cp|]; [|done].
  split; [intros field; apply merge_fields_lookup|].
  intros field Hset. rewrite merge_fields_lookup, Hset. by rewrite andb_false_r.
Qed.

(** ** What keeps the pipeline from raising *)

Lemma context_parts_returns (i : nat) (chunks : list dict) :
  forallb chunk_renders chunks = true → ∃ parts, context_parts i chunks = Returns parts.
Proof.
  revert i. induction chunks as [|c rest IH]; intros i; simpl; [by eexists|].
  intros [[Hc Hsec]%andb_true_iff Hrest]%andb_true_iff.
  apply bool_decide_eq_true in Hc as [content Hc].
  destruct (IH (S i) Hrest) as [parts ->].
  unfold context_part, get_or, textual_or_absent in *. rewrite Hc.
  destruct (c !! "section_type") as [[]|]; simpl in *; try done; by eexists.
Qed.







Lemma error_result_shape (msg : string) :
  msg ≠ "" → is_error_result (error_result msg).
Proof.
  intros Hmsg. split; [by exists msg|].
  unfold SUCCESS_FIELDS, error_result. repeat constructor.
Qed.



(** ** Executions of a program *)

Section Executions.

Context {vector : Type}.
Implicit Types (c : call vector) (t : list (event vector)).

Lemma exec_perform_bind {R} c (k : reply vector c → prog vector R) t (r : outcome R) :
  exec (x ← perform c; k x) t r ↔
  ∃ o t', t = Ev c o :: t' ∧
    match o with
    | Returns x => exec (k x) t' r
    | Raises e => t' = [] ∧ r = Raises e
    end.
Proof.
  split.
  - intros (o & t' & -> & H). exists o, t'. split; [done|]. by destruct o.
  - intros (o & t' & -> & H). exists o, t'. split; [done|]. by destruct o.
Qed.

Lemma exec_attempt_bind {R} c (k : outcome (reply vector c) → prog vector R) t
    (r : outcome R) :
  exec (x ← attempt c; k x) t r ↔ ∃ o t', t = Ev c o :: t' ∧ exec (k o) t' r.
Proof. done. Qed.

Lemma exec_lift_bind {A R} (o : outcome A) (k : A → prog vector R) t (r : outcome R) :
  exec (x ← lift o; k x) t r ↔
  match o with
  | Returns x => exec (k x) t r
  | Raises e => t = [] ∧ r = Raises e
  end.
Proof. by destruct o. Qed.

(** Every environment yields an execution: the pipeline always ends, with a
    result or with an exception. *)
Lemma run_exec {S R} (w : world vector S) (p : prog vector R) (s : S) :
  exec p (run w p s).1.2 (run w p s).1.1.
Proof.
  revert s. induction p as [x|e|c k IH]; intros s; simpl; [done..|].
  destruct (w c s) as [o s1]. specialize (IH o s1).
  destruct (run w (k o) s1) as [[r t] s2]. simpl in *. by exists o, t.
Qed.

End Executions.

(** Walk an execution of the pipeline to its end, along every path: split on
    the answer to each call and on the outcome of each pure computation. *)
Ltac exec_norm H :=
  cbn [exec mbind prog_mbind prog_bind perform attempt lift] in H.

Ltac exec_walk H :=
  exec_norm H;
  repeat
    (first
       [ destruct H as (? & ? & -> & H)
       | destruct H as [-> ->]
       | match type of H with
         | exec (claim_check_steps _ _ _ _ _ _ _) _ _ => unfold claim_check_steps in H
         | exec (prog_bind _ (match ?x with _ => _ end)) _ _ => destruct x eqn:?
         | exec (mbind _ (lift ?x)) _ _ => destruct x eqn:?
         | exec (match ?x with _ => _ end) _ _ => destruct x eqn:?
         end ];
     exec_norm H).

(** Close an equation between closed terms by evaluating both sides. *)
Ltac vm_refl :=
  match goal with
  | |- ?a = ?b => exact (@eq_refl _ b <: a = b)
  end.

(** Split a property of every event of an explicit trace. *)
Ltac trace_forall :=
  repeat (first [ apply Forall_nil_2 | apply Forall_cons_2 ]).

(** Split the hypotheses that speak of every event of an explicit trace, and
    use them at the events they apply to. *)
Ltac forall_hyps :=
  repeat match goal with
         | H : Forall _ (_ :: _) |- _ =>
             let H1 := fresh "Hev" in
             apply Forall_cons_1 in H as [H1 H]; simpl in H1
         | H : Forall _ [] |- _ => clear H
         end;
  repeat match goal with
         | H : ∀ l, Some ?x = Some l → _ |- _ => specialize (H _ eq_refl)
         | H : ∀ a b, Some (?x, ?y) = Some (a, b) → _ |- _ => specialize (H _ _ eq_refl)
         | H : ∀ l, None = Some l → _ |- _ => clear H
         | H : ∀ a b, None = Some (a, b) → _ |- _ => clear H
         end.

Section Claims.

Context {vector : Type} (GROUNDED_CLAIM_SYSTEM : string).
Implicit Types (t : list (event vector)) (r : outcome claim_result).

(** C4.  When the reference is not a catalog policy (the catalog lookup is
    answered without a record), every retrieval call the pipeline issues,
    semantic, section-filtered or keyword, searches the document named by the
    reference itself, whatever the catalog offers for enrichment; and a run
    that reaches fusion has issued exactly four retrievals, all on it. *)
Theorem uploaded_policy_searches_own_document
    (policy_id condition treatment_type : string) t r :
  exec (run_claim_check vector GROUNDED_CLAIM_SYSTEM policy_id condition treatment_type)
    t r →
  head t ≫= ev_record = None →
  Forall (λ e, ∀ doc, search_target (ev_call e) = Some doc → doc = PStr policy_id) t
  ∧ (existsb (λ e, is_fusion (ev_call e)) t = true →
     omap (λ e, search_target (ev_call e)) t
     = [PStr policy_id; PStr policy_id; PStr policy_id; PStr policy_id]).
Proof.
  intros H Hcat. unfold run_claim_check in H.
  exec_walk H; simpl in Hcat; try congruence.
  all: split; [trace_forall; simpl; intros; congruence|].
  all: simpl; intros; congruence.
Qed.

(** C6.  When the reference is a catalog policy and the lookup of a document
    for its insurer is answered without one, the run consists of these two
    lookups only (no retrieval on any document), and returns the error result
    whose message names the policy and the insurer and asks for an upload;
    that result has no feasibility score. *)
Theorem catalog_policy_without_document
    (policy_id condition treatment_type : string) t r (policy : dict) :
  exec (run_claim_check vector GROUNDED_CLAIM_SYSTEM policy_id condition treatment_type)
    t r →
  head t ≫= ev_record = Some policy →
  ev_absent <$> t !! 1%nat = Some true →
  let name := py_or (get policy "name") (PStr "Unknown Policy") in
  let insurer := get_or policy "insurer" (PStr "") in
  ev_call <$> t = [get_catalog_policy policy_id; find_uploaded_for_insurer insurer]
  ∧ r = Returns (error_result (no_document_message name insurer))
  ∧ str_in (py_str name) (no_document_message name insurer) = true
  ∧ str_in (py_str insurer) (no_document_message name insurer) = true
  ∧ str_in "upload this policy's PDF" (no_document_message name insurer) = true
  ∧ is_error_result (error_result (no_document_message name insurer))
  ∧ error_result (no_document_message name insurer) !! "feasibility_score" = None.
Proof.
  intros H Hcat Habs name insurer.
  assert (Hmsg : str_in (py_str name) (no_document_message name insurer) = true
    ∧ str_in (py_str insurer) (no_document_message name insurer) = true
    ∧ str_in "upload this policy's PDF" (no_document_message name insurer) = true
    ∧ is_error_result (error_result (no_document_message name insurer))
    ∧ error_result (no_document_message name insurer) !! "feasibility_score" = None).
  { split; [apply str_in_middle|].
    split; [do 3 apply str_in_app_r; apply str_in_middle|].
    split; [do 5 apply str_in_app_r; vm_compute; reflexivity|].
    split; [by apply error_result_shape|reflexivity]. }
  unfold run_claim_check in H.
  exec_walk H; simpl in Hcat, Habs; simplify_eq; try done.
  all: try (apply bool_decide_eq_true in Habs; congruence).
Qed.


(** C3.  Whenever fusion is answered with the empty set, the run returns the
    no-evidence error result, whose message is not empty and names the
    condition, and no analysis call has been made.  An analysis call is only
    ever made on the context block of a non-empty fused set, and that block is
    not empty.  In particular, when every retrieval is answered with the empty
    list and fusion answers as the specification describes it, the run that
    reaches fusion returns the no-evidence error result. *)
Theorem no_evidence_guard (policy_id condition treatment_type : string) t r :
  exec (run_claim_check vector GROUNDED_CLAIM_SYSTEM policy_id condition treatment_type)
    t r →
  (existsb ev_fused_empty t = true →
     r = Returns (error_result (no_evidence_message condition))
     ∧ no_evidence_message condition ≠ ""
     ∧ str_in condition (no_evidence_message condition) = true
     ∧ is_error_result (error_result (no_evidence_message condition))
     ∧ forallb (λ e, negb (is_chat_json (ev_call e))) t = true)
  ∧ Forall (λ e, ∀ user, chat_prompt (ev_call e) = Some user →
        ∃ fused ctx,
          fused ≠ []
          ∧ Exists (λ e', ev_fused e' = Some fused) t
          ∧ _build_context_block fused = Returns ctx
          ∧ ctx ≠ ""
          ∧ user = user_prompt_text ctx condition treatment_type) t
  ∧ (Forall (λ e, ∀ l, ev_retrieved e = Some l → l = []) t →
     Forall (λ e, ∀ sem kw, fusion_inputs (ev_call e) = Some (sem, kw) →
                ev_fused e = Some (rrf_fusion_spec sem kw 10)) t →
     existsb (λ e, is_fusion (ev_call e)) t = true →
     r = Returns (error_result (no_evidence_message condition))).
Proof.
  intros H.
  assert (Hmsg : no_evidence_message condition ≠ ""
    ∧ str_in condition (no_evidence_message condition) = true
    ∧ is_error_result (error_result (no_evidence_message condition))).
  { split; [done|]. split; [apply str_in_middle|by apply error_result_shape]. }
  unfold run_claim_check in H.
  exec_walk H.
  all: destruct Hmsg as (Hm1 & Hm2 & Hm3).
  all: split;
    [intros Hex; simpl in Hex;
     first [discriminate
           |exact (conj eq_refl (conj Hm1 (conj Hm2 (conj Hm3 eq_refl))))]|].
  all: split;
    [trace_forall; simpl; intros; simplify_eq;
     try (eexists _, _; split; [|split; [|split; [eassumption|split; [|done]]]];
          [done
          |repeat first [by apply Exists_cons_hd | apply Exists_cons_tl]
          |by eapply context_block_nonempty])
    |].
  all: intros Hret Hfuse Hreach; simpl in Hreach; try discriminate.
  all: forall_hyps; simplify_eq; done.
Qed.

Lemma fusion_call_after_retrievals
    (policy_id condition treatment_type : string) t r (a b c kw : list dict) :
  exec (run_claim_check vector GROUNDED_CLAIM_SYSTEM policy_id condition treatment_type)
    t r →
  omap ev_retrieved t = [a; b; c; kw] →
  omap (λ e, fusion_call (ev_call e)) t = [(_dedupe (a ++ b ++ c), kw, 10%nat)].
Proof.
  intros H Hret. unfold run_claim_check in H.
  exec_walk H; simpl in Hret; simplify_eq; reflexivity.
Qed.

Lemma retrievals_reachable
    (policy_id condition treatment_type : string) (a b c kw : list dict) (v : vector) :
  ∃ t r,
    exec (run_claim_check vector GROUNDED_CLAIM_SYSTEM policy_id condition treatment_type)
      t r
    ∧ omap ev_retrieved t = [a; b; c; kw].
Proof.
  exists [Ev (get_catalog_policy policy_id) (Returns None);
          Ev (get_policy_by_id policy_id) (Returns (Some {[ "id" := PStr policy_id ]}));
          Ev list_catalog_policies (Returns []);
          Ev (embed_text (condition +:+ " " +:+ treatment_type)) (Returns v);
          Ev (embed_text "inpatient hospitalization benefit covered illness treatment")
            (Returns v);
          Ev (semantic_search v (PStr policy_id) 6) (Returns a);
          Ev (semantic_search v (PStr policy_id) 4) (Returns b);
          Ev (section_search v (PStr policy_id) CLAIM_SECTIONS 4) (Returns c);
          Ev (keyword_search condition (PStr policy_id) 10) (Returns kw);
          Ev (rrf_fusion (_dedupe (a ++ b ++ c)) kw 10) (Raises (Exn OtherError ""))],
         (Raises (Exn OtherError "")).
  split; [|reflexivity].
  unfold run_claim_check, claim_check_steps.
  cbn [exec mbind prog_mbind prog_bind perform attempt lift].
  eexists _, _. split; [reflexivity|].
  cbn [exec mbind prog_mbind prog_bind perform attempt lift].
  change (record None) with (@None dict).
  cbn [exec mbind prog_mbind prog_bind perform attempt lift].
  eexists _, _. split; [reflexivity|].
  cbn [exec mbind prog_mbind prog_bind perform attempt lift].
  change (record (Some {[ "id" := PStr policy_id ]}))
    with (Some ({[ "id" := PStr policy_id ]} : dict)).
  cbn [exec mbind prog_mbind prog_bind perform attempt lift].
  eexists _, _. split; [reflexivity|].
  cbn [exec mbind prog_mbind prog_bind perform attempt lift].
  change (enrich_uploaded {[ "id" := PStr policy_id ]} [])
    with (Returns ({[ "id" := PStr policy_id ]} : dict)).
  cbn [exec mbind prog_mbind prog_bind perform attempt lift].
  do 7 (eexists _, _; split; [reflexivity|];
        cbn [exec mbind prog_mbind prog_bind perform attempt lift]).
  done.
Qed.
Lemma fusion_inputs_from_retrievals
    (policy_id condition treatment_type : string) t r :
  exec (run_claim_check vector GROUNDED_CLAIM_SYSTEM policy_id condition treatment_type)
    t r →
  Forall (λ e, ∀ sem kw, fusion_inputs (ev_call e) = Some (sem, kw) →
            ∃ a b c, omap ev_retrieved t = [a; b; c; kw]
                     ∧ sem = _dedupe (a ++ b ++ c)) t.
Proof.
  intros H. unfold run_claim_check in H. exec_walk H.
  all: trace_forall; simpl; intros; simplify_eq; by eexists _, _, _.
Qed.

(** C9.  Whatever four lists the retrievals are answered with, such a run
    exists (given a vector for the embedder to answer with).  In a run whose
    four retrievals are answered, fusion is called once, with the limit of
    ten chunks, on [_dedupe] of the three semantic answers concatenated in
    the order of the calls, and on the keyword answer as retrieved; and a
    fusion call is only ever made on lists that come about this way.
    [_dedupe] keeps one chunk per identifier, in input order, and the chunk
    it keeps is the first of the input with that identifier; every chunk of
    the input that has an identifier is represented; running it on its own
    output changes nothing.  A second run whose retrievals are answered alike
    hands fusion the same lists, whatever its other arguments are, and gets
    the same fused set when fusion answers as the specification describes.
    With fusion so answering, the fused set is [rrf_fusion_spec] of these
    lists: it holds no identifier twice, at most ten chunks, and only chunks
    of its inputs, in descending order of fused score with ties in input
    order; and this order leaves no choice: any arrangement of the candidates
    that respects it gives the same list. *)
Theorem fusion_stable_and_deduplicating
    (policy_id condition treatment_type : string) (a b c kw : list dict) :
  (∀ v : vector, ∃ t r,
     exec (run_claim_check vector GROUNDED_CLAIM_SYSTEM policy_id condition
             treatment_type) t r
     ∧ omap ev_retrieved t = [a; b; c; kw])
  ∧ (∀ t r,
       exec (run_claim_check vector GROUNDED_CLAIM_SYSTEM policy_id condition
               treatment_type) t r →
       Forall (λ e, ∀ sem kw', fusion_inputs (ev_call e) = Some (sem, kw') →
                 ∃ a' b' c', omap ev_retrieved t = [a'; b'; c'; kw']
                             ∧ sem = _dedupe (a' ++ b' ++ c')) t)
  ∧ ∀ t r,
      exec (run_claim_check vector GROUNDED_CLAIM_SYSTEM policy_id condition treatment_type)
        t r →
      omap ev_retrieved t = [a; b; c; kw] →
      omap (λ e, fusion_call (ev_call e)) t = [(_dedupe (a ++ b ++ c), kw, 10%nat)]
      ∧ (∀ chunks : list dict,
           NoDup (chunk_key <$> _dedupe chunks)
           ∧ _dedupe chunks `sublist_of` chunks
           ∧ (∀ x, x ∈ chunks → has_id x = true →
                   chunk_key x ∈ chunk_key <$> _dedupe chunks)
           ∧ (∀ x, x ∈ _dedupe chunks →
                   ∃ pre post, chunks = pre ++ x :: post
                               ∧ Forall (λ d, chunk_key d ≠ chunk_key x) pre)
           ∧ _dedupe (_dedupe chunks) = _dedupe chunks)
      ∧ (∀ policy_id' condition' treatment_type' t' r',
           exec (run_claim_check vector GROUNDED_CLAIM_SYSTEM policy_id' condition'
                   treatment_type') t' r' →
           omap ev_retrieved t' = [a; b; c; kw] →
           omap (λ e, fusion_call (ev_call e)) t' = omap (λ e, fusion_call (ev_call e)) t
           ∧ (fusion_as_specified t → fusion_as_specified t' →
              omap ev_fused t' = omap ev_fused t))
      ∧ (fusion_as_specified t →
         omap ev_fused t = [rrf_fusion_spec (_dedupe (a ++ b ++ c)) kw 10]
         ∧ NoDup (chunk_key <$> rrf_fusion_spec (_dedupe (a ++ b ++ c)) kw 10)
         ∧ (length (rrf_fusion_spec (_dedupe (a ++ b ++ c)) kw 10) ≤ 10)%nat
         ∧ (∀ x, x ∈ rrf_fusion_spec (_dedupe (a ++ b ++ c)) kw 10 →
                 x ∈ _dedupe (a ++ b ++ c) ∨ x ∈ kw)
         ∧ StronglySorted (fused_order (_dedupe (a ++ b ++ c)) kw)
             (rrf_fusion_spec (_dedupe (a ++ b ++ c)) kw 10)
         ∧ (∀ l, l ≡ₚ first_by_id [] (_dedupe (a ++ b ++ c) ++ kw) →
                 StronglySorted (fused_order (_dedupe (a ++ b ++ c)) kw) l →
                 rrf_fusion_spec (_dedupe (a ++ b ++ c)) kw 10 = take 10 l)).
Proof.
  split; [intros v; by apply retrievals_reachable|].
  split; [intros t r; apply fusion_inputs_from_retrievals|].
  intros t r H Hret.
  pose proof (fusion_call_after_retrievals _ _ _ _ _ _ _ _ _ H Hret) as Hcall.
  assert (Hfused : ∀ t0 : list (event vector),
            omap (λ e, fusion_call (ev_call e)) t0
            = [(_dedupe (a ++ b ++ c), kw, 10%nat)] →
            fusion_as_specified t0 →
            omap ev_fused t0 = [rrf_fusion_spec (_dedupe (a ++ b ++ c)) kw 10]).
  { intros t0 Hc Hs. unfold fusion_as_specified in Hs.
    by rewrite Hs, omap_fmap_option, Hc. }
  split; [exact Hcall|]. split.
  { intros chunks. unfold _dedupe.
    split; [apply dedupe_loop_NoDup|].
    split; [apply dedupe_loop_sublist|].
    split; [intros x Hin Hid; apply dedupe_loop_complete; set_solver|].
    split; [apply dedupe_loop_first|].
    apply dedupe_loop_fixed; [apply dedupe_loop_has_id|apply dedupe_loop_NoDup|].
    apply Forall_forall. intros x _ []%elem_of_nil. }
  split.
  { intros policy_id' condition' treatment_type' t' r' H' Hret'.
    pose proof (fusion_call_after_retrievals _ _ _ _ _ _ _ _ _ H' Hret') as Hcall'.
    split; [by rewrite Hcall, Hcall'|].
    intros Hs Hs'. by rewrite (Hfused t Hcall Hs), (Hfused t' Hcall' Hs'). }
  intros Hs. split; [by apply Hfused|].
  split; [apply rrf_fusion_spec_NoDup|].
  split; [apply rrf_fusion_spec_length|].
  split; [intros x Hx%rrf_fusion_spec_from_inputs; by apply elem_of_app|].
  split; [apply rrf_fusion_spec_sorted|].
  intros l. apply rrf_fusion_spec_unique.
Qed.

(** C10 (as amended).  [_dedupe] drops every chunk whose identifier is
    missing, [None] or otherwise false, besides the later duplicates: its
    output holds only chunks with an identifier, and is the output it gives
    on the input stripped of the chunks without one.  Hence the semantic list
    handed to fusion never holds a chunk without identifier.  (The keyword
    list is handed to fusion as retrieved.) *)
Theorem dedupe_drops_chunks_without_id
    (policy_id condition treatment_type : string) t r :
  exec (run_claim_check vector GROUNDED_CLAIM_SYSTEM policy_id condition treatment_type)
    t r →
  (∀ chunks : list dict,
     Forall (λ c, has_id c = true) (_dedupe chunks)
     ∧ _dedupe (List.filter has_id chunks) = _dedupe chunks
     ∧ (∀ c, c ∈ chunks → has_id c = false → c ∉ _dedupe chunks))
  ∧ Forall (λ e, ∀ sem kw, fusion_inputs (ev_call e) = Some (sem, kw) →
              Forall (λ c, has_id c = true) sem
              ∧ ∃ l, last (omap ev_retrieved t) = Some l ∧ kw = l) t.
Proof.
  intros H.
  assert (Hids : ∀ chunks, Forall (λ c, has_id c = true) (_dedupe chunks))
    by (intros; apply dedupe_loop_has_id).
  split.
  - intros chunks. split; [done|]. split; [apply dedupe_loop_filter|].
    intros c _ Hno Hin. specialize (Hids chunks).
    rewrite Forall_forall in Hids. apply Hids in Hin. congruence.
  - unfold run_claim_check in H. exec_walk H.
    all: trace_forall; simpl; intros; simplify_eq.
    all: split; [done|by eexists].
Qed.


End Claims.


(** ** The properties on sample runs *)

Lemma no_evidence_guard_witness :
  exec sample_check unindexed_run.2 unindexed_run.1
  ∧ existsb ev_fused_empty unindexed_run.2 = true
  ∧ unindexed_run.1 = Returns (error_result (no_evidence_message "knee replacement"))
  ∧ forallb (λ e, negb (is_chat_json (ev_call e))) unindexed_run.2 = true.
Proof.
  split; [apply run_exec|]. split; [vm_compute; reflexivity|].
  destruct (no_evidence_guard "system prompt" "u1" "knee replacement" "surgery"
              unindexed_run.2 unindexed_run.1 (run_exec _ _ _)) as [Hguard _].
  destruct Hguard as (Hres & _ & _ & _ & Hllm); [vm_compute; reflexivity|].
  by split.
Defined.

Lemma uploaded_policy_searches_own_document_witness :
  exec sample_check uploaded_run.2 uploaded_run.1
  ∧ head uploaded_run.2 ≫= ev_record = None
  ∧ Forall (λ e, ∀ doc, search_target (ev_call e) = Some doc → doc = PStr "u1")
      uploaded_run.2
  ∧ omap (λ e, search_target (ev_call e)) uploaded_run.2
    = [PStr "u1"; PStr "u1"; PStr "u1"; PStr "u1"].
Proof.
  split; [apply run_exec|]. split; [vm_compute; reflexivity|].
  destruct (uploaded_policy_searches_own_document "system prompt" "u1"
              "knee replacement" "surgery" uploaded_run.2 uploaded_run.1
              (run_exec _ _ _)) as [Hall Hfour]; [vm_compute; reflexivity|].
  split; [exact Hall|]. apply Hfour. vm_compute; reflexivity.
Defined.

Lemma catalog_policy_without_document_witness :
  exec (run_claim_check string "system prompt" "optima" "knee replacement" "surgery")
    catalog_run.2 catalog_run.1
  ∧ head catalog_run.2 ≫= ev_record = Some hdfc_catalog
  ∧ ev_absent <$> catalog_run.2 !! 1%nat = Some true
  ∧ ev_call <$> catalog_run.2
    = [get_catalog_policy "optima"; find_uploaded_for_insurer (PStr "HDFC ERGO")]
  ∧ catalog_run.1
    = Returns (error_result
                 (no_document_message (PStr "Optima Secure") (PStr "HDFC ERGO"))).
Proof.
  split; [apply run_exec|]. split; [vm_compute; reflexivity|].
  split; [vm_compute; reflexivity|].
  destruct (catalog_policy_without_document "system prompt" "optima"
              "knee replacement" "surgery" catalog_run.2 catalog_run.1 hdfc_catalog
              (run_exec _ _ _)) as (Hcalls & Hres & _);
    [vm_compute; reflexivity..|].
  split; [exact Hcalls|exact Hres].
Defined.



Lemma fusion_stable_and_deduplicating_witness :
  exec sample_check uploaded_run.2 uploaded_run.1
  ∧ omap ev_retrieved uploaded_run.2
    = [[chunk_hospital; chunk_cosmetic]; [chunk_hospital; chunk_cosmetic];
       [chunk_cosmetic]; [chunk_anonymous]]
  ∧ fusion_as_specified uploaded_run.2
  ∧ omap (λ e, fusion_call (ev_call e)) uploaded_run.2
    = [(_dedupe ([chunk_hospital; chunk_cosmetic]
                 ++ [chunk_hospital; chunk_cosmetic] ++ [chunk_cosmetic]),
        [chunk_anonymous], 10%nat)]
  ∧ _dedupe ([chunk_hospital; chunk_cosmetic]
             ++ [chunk_hospital; chunk_cosmetic] ++ [chunk_cosmetic])
    = [chunk_hospital; chunk_cosmetic]
  ∧ omap ev_fused uploaded_run.2
    = [rrf_fusion_spec
         (_dedupe ([chunk_hospital; chunk_cosmetic]
                   ++ [chunk_hospital; chunk_cosmetic] ++ [chunk_cosmetic]))
         [chunk_anonymous] 10]
  ∧ NoDup (chunk_key <$>
             rrf_fusion_spec
               (_dedupe ([chunk_hospital; chunk_cosmetic]
                         ++ [chunk_hospital; chunk_cosmetic] ++ [chunk_cosmetic]))
               [chunk_anonymous] 10).
Proof.
  split; [apply run_exec|].
  assert (Hret : omap ev_retrieved uploaded_run.2
                 = [[chunk_hospital; chunk_cosmetic]; [chunk_hospital; chunk_cosmetic];
                    [chunk_cosmetic]; [chunk_anonymous]])
    by vm_refl.
  assert (Hspec : fusion_as_specified uploaded_run.2)
    by (unfold fusion_as_specified; vm_refl).
  split; [exact Hret|]. split; [exact Hspec|].
  destruct (fusion_stable_and_deduplicating (vector:=string) "system prompt" "u1"
              "knee replacement" "surgery" [chunk_hospital; chunk_cosmetic]
              [chunk_hospital; chunk_cosmetic] [chunk_cosmetic] [chunk_anonymous])
    as (_ & _ & Hrun).
  destruct (Hrun uploaded_run.2 uploaded_run.1 (run_exec _ _ _) Hret)
    as (Hcall & _ & _ & Hfused).
  destruct (Hfused Hspec) as (Hset & Hnodup & _).
  split; [exact Hcall|]. split; [vm_refl|].
  split; [exact Hset|exact Hnodup].
Defined.

Lemma dedupe_drops_chunks_without_id_witness :
  exec sample_check uploaded_run.2 uploaded_run.1
  ∧ Forall (λ c, has_id c = true)
      (_dedupe [chunk_anonymous; chunk_hospital; chunk_hospital])
  ∧ Forall (λ e, ∀ sem kw, fusion_inputs (ev_call e) = Some (sem, kw) →
              Forall (λ c, has_id c = true) sem
              ∧ ∃ l, last (omap ev_retrieved uploaded_run.2) = Some l ∧ kw = l)
      uploaded_run.2.
Proof.
  split; [apply run_exec|].
  destruct (dedupe_drops_chunks_without_id "system prompt" "u1" "knee replacement"
              "surgery" uploaded_run.2 uploaded_run.1 (run_exec _ _ _))
    as [Hpure Hinputs].
  split; [apply Hpure|exact Hinputs].
Defined.

Lemma enrichment_copies_missing_fields_witness :
  text_or_falsy star_upload "insurer" = true
  ∧ Forall (λ cp, text_or_falsy cp "insurer" = true) [hdfc_catalog; star_catalog]
  ∧ ∃ policy,
      enrich_uploaded star_upload [hdfc_catalog; star_catalog] = Returns policy
      ∧ match List.find (λ cp, insurer_matches (insurer_name star_upload)
                                 (insurer_name cp)) [hdfc_catalog; star_catalog] with
        | Some cp =>
            ∀ field, policy !! field =
              if bool_decide (field ∈ SCORING_FIELDS) && is_none (get star_upload field)
                 && negb (is_none (get cp field))
              then Some (get cp field) else star_upload !! field
        | None => policy = star_upload
        end
      ∧ (∀ field, is_none (get star_upload field) = false →
                  policy !! field = star_upload !! field).
Proof.
  split; [vm_compute; reflexivity|].
  split; [repeat constructor|].
  apply enrichment_copies_missing_fields; [vm_compute; reflexivity|repeat constructor].
Defined.

(** What enrichment gives on the sample records: the first catalog record
    does not match, the second donates the two fields the upload lacks, and
    the co-pay the upload has stays. *)
Example enrichment_sample :
  enrich_uploaded star_upload [hdfc_catalog; star_catalog]
  = Returns (<["waiting_period_preexisting_years" := PInt 3]>
             (<["room_rent_limit" := PStr "No limit"]> star_upload)).
Proof. vm_compute. reflexivity. Qed.

(** The claim of C5 taken at its word fails on an upload without insurer: its
    empty name is contained in every catalog name, yet nothing is copied. *)
Lemma enrichment_skips_nameless_upload :
  str_in (insurer_name {[ "user_label" := PStr "My plan" ]})
    (insurer_name {[ "insurer" := PStr "Tata AIG"; "co_pay_percent" := PInt 10 ]}) = true
  ∧ is_none (get {[ "user_label" := PStr "My plan" ]} "co_pay_percent") = true
  ∧ get {[ "insurer" := PStr "Tata AIG"; "co_pay_percent" := PInt 10 ]} "co_pay_percent"
    = PInt 10
  ∧ enrich_uploaded {[ "user_label" := PStr "My plan" ]}
      [ {[ "insurer" := PStr "Tata AIG"; "co_pay_percent" := PInt 10 ]} ]
    = Returns {[ "user_label" := PStr "My plan" ]}.
Proof. repeat split; vm_compute; reflexivity. Qed.

(** The other direction is not guarded: a catalog record without insurer
    matches every upload that has one. *)
Example enrichment_from_nameless_catalog_record :
  enrich_uploaded {[ "insurer" := PStr "Star Health" ]}
    [ {[ "name" := PStr "Generic"; "co_pay_percent" := PInt 20 ]}; star_catalog ]
  = Returns {[ "insurer" := PStr "Star Health"; "co_pay_percent" := PInt 20 ]}.
Proof. vm_compute. reflexivity. Qed.


(** So does the type error of the scoring when a record holds [None] in a
    numeric scoring field, or when the analysis reports a number as its risk
    flags. *)
Example null_metadata_escapes :
  (play {| sc_catalog := None;
           sc_uploaded := Some (<["co_pay_percent" := PNone]> star_upload);
           sc_all_catalog := [];
           sc_insurer_document := None;
           sc_embed := λ text, Returns text;
           sc_semantic := [chunk_hospital];
           sc_section := [];
           sc_keyword := [];
           sc_analysis := Returns sample_analysis |}
     "u1" "knee replacement" "surgery").1
  = Raises (Exn TypeError "").
Proof. vm_compute. reflexivity. Qed.

Example malformed_analysis_escapes :
  (play {| sc_catalog := None;
           sc_uploaded := Some star_upload;
           sc_all_catalog := [];
           sc_insurer_document := None;
           sc_embed := λ text, Returns text;
           sc_semantic := [chunk_hospital];
           sc_section := [];
           sc_keyword := [];
           sc_analysis := Returns {[ "risk_flags" := JVal (PInt 3) ]} |}
     "u1" "knee replacement" "surgery").1
  = Raises (Exn TypeError "").
Proof. vm_compute. reflexivity. Qed.

(** Against the last part of C10: the keyword list goes to fusion as
    retrieved.  In the sample run the chunk without identifier is in the
    keyword list handed to fusion, in the fused set, and its text is in the
    prompt of the analysis call. *)
Lemma anonymous_chunk_reaches_fusion :
  has_id chunk_anonymous = false
  ∧ omap (λ e, fusion_inputs (ev_call e)) uploaded_run.2
    = [([chunk_hospital; chunk_cosmetic], [chunk_anonymous])]
  ∧ omap ev_fused uploaded_run.2 = [[chunk_hospital; chunk_anonymous; chunk_cosmetic]]
  ∧ existsb (λ e, from_option (str_in "Knee replacement is payable after 24 months.")
                    false (chat_prompt (ev_call e))) uploaded_run.2 = true.
Proof. repeat split; vm_compute; reflexivity. Qed.

(** The two examples of the specification's scoring section.  The sum of the
    first is 95: no input reaches the upper clamp. *)
Example score_best_case :
  compute_claim_score "covered" (JList []) (JList [])
    {[ "waiting_period_preexisting_years" := PInt 1; "co_pay_percent" := PInt 0;
       "room_rent_limit" := PStr "No limit" ]} = Returns 95.
Proof. vm_compute. reflexivity. Qed.

Example score_worst_case :
  compute_claim_score "excluded" (JList [PStr "Cosmetic surgery is excluded"])
    (JList [PStr "pre_auth_required"; PStr "documentation_intensive"])
    {[ "waiting_period_preexisting_years" := PInt 4; "co_pay_percent" := PInt 10;
       "room_rent_limit" := PStr "2% of sum insured" ]} = Returns 0.
Proof. vm_compute. reflexivity. Qed.


(** * Further properties

    What the code shows beyond the statements above: the domain and the range
    of the scoring function, the shape of the context block, deduplication of
    a concatenation, the scan of the enrichment, and the order, the number and
    the failure of the calls of a run. *)

(** ** The domain of the scoring function *)

Lemma numeric_or_absent_value (d : dict) (k : string) (dflt : Z) :
  numeric_or_absent d k = false → as_number (get_or d k (PInt dflt)) = None.
Proof.
  unfold numeric_or_absent, get_or. destruct (d !! k) as [v|]; simpl; [|done].
  intros H%bool_decide_eq_false. destruct (as_number v); [|done].
  destruct H. by eexists.
Qed.

Lemma untyped_room_value (d : dict) (k : string) :
  text_or_falsy d k = false →
  ∃ v, py_or (get d k) (PStr "") = v ∧ truthy v = true
       ∧ py_contains "%" v = raise TypeError.
Proof.
  unfold text_or_falsy, get, py_or.
  destruct (d !! k) as [[| [] | z | s]|]; simpl; try done.
  - intros _. by eexists.
  - intros H%negb_false_iff. rewrite H. eexists. split; [done|].
    split; [simpl; by rewrite H|done].
Qed.

Lemma no_length_value (flags : jsonval) :
  has_length flags = false →
  jtruthy (j_or flags (JList [])) = true
  ∧ py_len (j_or flags (JList [])) = raise TypeError.
Proof.
  unfold j_or. destruct flags as [[| [] | z | s] | l]; simpl; try done.
  intros H%negb_false_iff. rewrite H. simpl. by rewrite H.
Qed.

Lemma compute_claim_score_eq
    (status : string) (excl flags : jsonval) (policy : dict) :
  compute_claim_score status excl flags policy
  = if scoring_fields_typed policy && has_length flags
    then Returns (clamp (rule_table_sum (lower status) (jsize excl) (jsize flags)
           (field_number policy "waiting_period_preexisting_years" 4)
           (field_number policy "co_pay_percent" 0)
           (field_text policy "room_rent_limit")))
    else Raises (Exn TypeError "").
Proof.
  destruct (scoring_fields_typed policy) eqn:Hty, (has_length flags) eqn:Hlen;
    cbn [andb]; [by apply compute_claim_score_returns|..].
  - (* the risk flags have no length *)
    apply andb_true_iff in Hty as [[Hped Hco]%andb_true_iff Hroom].
    destruct (no_length_value flags Hlen) as [Ht Hl].
    unfold compute_claim_score.
    rewrite !(py_le_number _ _ _ _ Hped), Ht, Hl.
    generalize (field_number policy "waiting_period_preexisting_years" 4). intros ped.
    cbn [mbind outcome_bind negb].
    by destruct (ped <=? 1), (ped <=? 2).
  - (* a scoring field is ill-typed *)
    unfold scoring_fields_typed in Hty. unfold compute_claim_score.
    destruct (numeric_or_absent policy "waiting_period_preexisting_years") eqn:Hped.
    2:{ unfold py_le. by rewrite (numeric_or_absent_value _ _ _ Hped). }
    rewrite !(py_le_number _ _ _ _ Hped).
    generalize (field_number policy "waiting_period_preexisting_years" 4). intros ped.
    assert (Hflags : ∀ score : Z, ∃ score',
      (if negb (jtruthy (j_or flags (JList []))) then Returns (score + 10)
       else n ← py_len (j_or flags (JList [])); Returns (score - Z.min (n * 5) 20))
      = Returns score').
    { intros score. rewrite jtruthy_size.
      destruct (jsize flags) eqn:Hs; simpl; [by eexists|].
      rewrite py_len_size by (done || lia). by eexists. }
    destruct (numeric_or_absent policy "co_pay_percent") eqn:Hco.
    + cbn [andb] in Hty. destruct (untyped_room_value _ _ Hty) as (v & -> & Hv & Hraise).
      rewrite (py_gt_number _ _ _ _ Hco), Hv, Hraise.
      cbn [mbind outcome_bind].
      destruct (ped <=? 1), (ped <=? 2); cbn [mbind outcome_bind];
        match goal with
        | |- context [if negb (jtruthy ?f) then Returns (?s + 10) else _] =>
            destruct (Hflags s) as [? ->]
        end; done.
    + unfold py_gt. rewrite (numeric_or_absent_value _ _ _ Hco).
      cbn [mbind outcome_bind].
      destruct (ped <=? 1), (ped <=? 2); cbn [mbind outcome_bind];
        match goal with
        | |- context [if negb (jtruthy ?f) then Returns (?s + 10) else _] =>
            destruct (Hflags s) as [? ->]
        end; done.
  - (* both *)
    unfold scoring_fields_typed in Hty. unfold compute_claim_score.
    destruct (no_length_value flags Hlen) as [Ht Hl].
    destruct (numeric_or_absent policy "waiting_period_preexisting_years") eqn:Hped.
    2:{ unfold py_le. by rewrite (numeric_or_absent_value _ _ _ Hped). }
    rewrite !(py_le_number _ _ _ _ Hped), Ht, Hl.
    generalize (field_number policy "waiting_period_preexisting_years" 4). intros ped.
    cbn [mbind outcome_bind negb].
    by destruct (ped <=? 1), (ped <=? 2).
Qed.

(** X1.  [compute_claim_score] returns a score exactly when the metadata is
    typed (the waiting period and the co-pay each absent or a number, the
    room-rent limit absent, text, or a value that counts as false) and the
    risk flags, when they count as true, have a length.  Neither the status
    nor the exclusions can make it fail, and every exception it raises is a
    [TypeError]. *)
Theorem compute_claim_score_domain
    (status : string) (excl flags : jsonval) (policy : dict) :
  ((∃ score, compute_claim_score status excl flags policy = Returns score)
   ↔ scoring_fields_typed policy = true ∧ has_length flags = true)
  ∧ (∀ e, compute_claim_score status excl flags policy = Raises e →
          exn_kind e = TypeError).
Proof.
  rewrite compute_claim_score_eq. split.
  - rewrite <- andb_true_iff. destruct (_ && _); split; try done.
    + by eexists.
    + by intros [? ?].
  - intros e. destruct (_ && _); [done|]. by intros [= <-].
Qed.

(** X2.  A returned score lies between 0 and 95: the upper bound 100 of the
    final clamp is never reached, the largest sum of the table being
    50 + 20 + 15 + 10. *)
Theorem compute_claim_score_at_most_95
    (status : string) (excl flags : jsonval) (policy : dict) (score : Z) :
  compute_claim_score status excl flags policy = Returns score →
  0 ≤ score ≤ 95.
Proof.
  rewrite compute_claim_score_eq. destruct (_ && _); [|done].
  intros [= <-].
  pose proof (rule_table_sum_upper (lower status) (jsize excl) (jsize flags)
    (field_number policy "waiting_period_preexisting_years" 4)
    (field_number policy "co_pay_percent" 0)
    (field_text policy "room_rent_limit")).
  unfold clamp. lia.
Qed.

Lemma compute_claim_score_at_most_95_witness :
  compute_claim_score "covered" (JList []) (JList [])
    {[ "waiting_period_preexisting_years" := PInt 0 ]} = Returns 95
  ∧ 0 ≤ 95 ≤ 95.
Proof.
  split; [vm_compute; reflexivity|].
  apply (compute_claim_score_at_most_95 "covered" (JList []) (JList [])
           {[ "waiting_period_preexisting_years" := PInt 0 ]}).
  vm_compute; reflexivity.
Defined.

Lemma lower_ascii_idempotent (c : ascii) : lower_ascii (lower_ascii c) = lower_ascii c.
Proof. by destruct c as [[] [] [] [] [] [] [] []]. Qed.

Lemma lower_idempotent (s : string) : lower (lower s) = lower s.
Proof. induction s as [|c s IH]; simpl; [done|]. by rewrite lower_ascii_idempotent, IH. Qed.

(** X3.  The status is read without regard to case, and only its class
    matters: a status that, in lower case, is neither "covered" nor
    "partially_covered" (so "excluded", "unknown" or any other text) scores
    as "unknown" does.  With the other inputs fixed the three classes are
    ordered, unknown ≤ partially_covered ≤ covered, and the status moves the
    score by at most 50. *)
Theorem score_by_status_class
    (status : string) (excl flags : jsonval) (policy : dict) :
  compute_claim_score status excl flags policy
  = compute_claim_score (lower status) excl flags policy
  ∧ (lower status ≠ "covered" → lower status ≠ "partially_covered" →
     compute_claim_score status excl flags policy
     = compute_claim_score "unknown" excl flags policy)
  ∧ (∀ covered partial other : Z,
       compute_claim_score "covered" excl flags policy = Returns covered →
       compute_claim_score "partially_covered" excl flags policy = Returns partial →
       compute_claim_score "unknown" excl flags policy = Returns other →
       other ≤ partial ≤ covered ∧ covered ≤ other + 50).
Proof.
  rewrite !compute_claim_score_eq, lower_idempotent.
  split; [done|]. split.
  - intros Hc Hp. destruct (_ && _); [|done]. do 2 f_equal.
    unfold rule_table_sum, coverage_base.
    apply String.eqb_neq in Hc, Hp. by rewrite Hc, Hp.
  - intros covered partial other. destruct (_ && _); [|done].
    intros [= <-] [= <-] [= <-].
    unfold rule_table_sum, clamp.
    repeat match goal with
           | |- context [coverage_base ?s] =>
               let v := eval vm_compute in (coverage_base s) in
               change (coverage_base s) with v
           end.
    lia.
Qed.



Lemma field_number_insert (d : dict) (k : string) (z dflt : Z) :
  field_number (<[k := PInt z]> d) k dflt = z.
Proof. unfold field_number. by rewrite lookup_insert_eq. Qed.

Lemma field_number_insert_ne (d : dict) (k k' : string) (v : pyval) (dflt : Z) :
  k ≠ k' → field_number (<[k := v]> d) k' dflt = field_number d k' dflt.
Proof. intros. unfold field_number. by rewrite lookup_insert_ne. Qed.

Lemma field_text_insert_ne (d : dict) (k k' : string) (v : pyval) :
  k ≠ k' → field_text (<[k := v]> d) k' = field_text d k'.
Proof. intros. unfold field_text. by rewrite lookup_insert_ne. Qed.

(** X5.  The score never rises when the waiting period for pre-existing
    disease or the co-pay percentage grows, the other inputs being the
    same. *)
Theorem score_antitone_in_wait_and_copay
    (status : string) (excl flags : jsonval) (policy : dict)
    (years years' copay copay' score score' : Z) :
  years ≤ years' → copay ≤ copay' →
  compute_claim_score status excl flags
    (<["waiting_period_preexisting_years" := PInt years]>
       (<["co_pay_percent" := PInt copay]> policy)) = Returns score →
  compute_claim_score status excl flags
    (<["waiting_period_preexisting_years" := PInt years']>
       (<["co_pay_percent" := PInt copay']> policy)) = Returns score' →
  score' ≤ score.
Proof.
  intros Hy Hc. rewrite !compute_claim_score_eq.
  destruct (_ && _); [|done]. destruct (_ && _); [|done].
  intros [= <-] [= <-].
  rewrite !field_number_insert.
  rewrite (field_number_insert_ne _ _ "co_pay_percent" (PInt years)) by done.
  rewrite (field_number_insert_ne _ _ "co_pay_percent" (PInt years')) by done.
  rewrite !field_number_insert, !field_text_insert_ne by done.
  unfold clamp, rule_table_sum, ped_wait_bonus, co_pay_delta.
  repeat match goal with
         | |- context [?a <=? ?b] => destruct (Z.leb_spec a b)
         | |- context [?a <? ?b] => destruct (Z.ltb_spec a b)
         end; lia.
Qed.

Lemma score_antitone_in_wait_and_copay_witness :
  1 ≤ 3 ∧ 0 ≤ 10
  ∧ compute_claim_score "covered" (JList []) (JList [])
      (<["waiting_period_preexisting_years" := PInt 1]>
         (<["co_pay_percent" := PInt 0]> ∅)) = Returns 95
  ∧ compute_claim_score "covered" (JList []) (JList [])
      (<["waiting_period_preexisting_years" := PInt 3]>
         (<["co_pay_percent" := PInt 10]> ∅)) = Returns 70
  ∧ 70 ≤ 95.
Proof.
  split; [lia|]. split; [lia|].
  split; [vm_compute; reflexivity|]. split; [vm_compute; reflexivity|].
  apply (score_antitone_in_wait_and_copay "covered" (JList []) (JList []) ∅ 1 3 0 10);
    [lia|lia|vm_compute; reflexivity|vm_compute; reflexivity].
Defined.

(** ** Text search *)

Lemma prefix_split (x h : string) : String.prefix x h = true → ∃ q, h = x +:+ q.
Proof.
  revert h. induction x as [|c x IH]; intros h; [by exists h|].
  destruct h as [|d h]; simpl; [done|].
  destruct (ascii_dec c d) as [->|]; [|done].
  intros [q ->]%IH. by exists q.
Qed.

Lemma str_in_unfold (x h : string) :
  str_in x h = String.prefix x h
               || match h with "" => false | String _ h' => str_in x h' end.
Proof. by destruct h. Qed.

Lemma str_in_split (x h : string) :
  str_in x h = true ↔ ∃ p q, h = p +:+ x +:+ q.
Proof.
  split.
  - induction h as [|c h IH]; rewrite str_in_unfold; intros [Hp|Hin]%orb_true_iff.
    + apply prefix_split in Hp as [q ->]. by exists "", q.
    + done.
    + apply prefix_split in Hp as [q ->]. by exists "", q.
    + destruct (IH Hin) as (p & q & ->). by exists (String c p), q.
  - intros (p & q & ->). apply str_in_middle.
Qed.

Lemma append_cons (x : ascii) (a b : string) : String x a +:+ b = String x (a +:+ b).
Proof. done. Qed.

Lemma append_assoc (a b c : string) : (a +:+ b) +:+ c = a +:+ b +:+ c.
Proof. induction a as [|x a IH]; [done|]. by rewrite !append_cons, IH. Qed.

Lemma append_nil_r (a : string) : a +:+ "" = a.
Proof. induction a as [|x a IH]; [done|]. by rewrite append_cons, IH. Qed.

Lemma str_in_refl (x : string) : str_in x x = true.
Proof. apply str_in_split. exists "", "". simpl. by rewrite append_nil_r. Qed.

Lemma str_in_trans (a b c : string) :
  str_in a b = true → str_in b c = true → str_in a c = true.
Proof.
  intros (p & q & ->)%str_in_split (p' & q' & ->)%str_in_split.
  apply str_in_split. exists (p' +:+ p), (q +:+ q').
  by rewrite !append_assoc.
Qed.

Lemma str_in_concat (sep x : string) (l : list string) :
  x ∈ l → str_in x (String.concat sep l) = true.
Proof.
  induction l as [|y l IH]; [by intros ?%elem_of_nil|].
  intros Hin. destruct l as [|z l].
  - apply list_elem_of_singleton in Hin as ->. apply str_in_refl.
  - change (String.concat sep (y :: z :: l))
      with (y +:+ sep +:+ String.concat sep (z :: l)).
    apply elem_of_cons in Hin as [->|Hin]; [apply str_in_prefix|].
    do 2 apply str_in_app_r. by apply IH.
Qed.

(** ** The context block *)

Lemma context_part_returns (i : nat) (c : dict) :
  (∃ part, context_part i c = Returns part) ↔ chunk_renders c = true.
Proof.
  unfold context_part, chunk_renders, textual_or_absent, get_or.
  destruct (c !! "section_type") as [[| b | z | s]|], (c !! "content") as [v|];
    simpl; split; try done; try (by intros [? ?]); try by eexists.
Qed.

Lemma context_part_raises (i : nat) (c : dict) (e : exn) :
  context_part i c = Raises e →
  exn_kind e = if textual_or_absent c "section_type" then KeyError else AttributeError.
Proof.
  unfold context_part, textual_or_absent, get_or.
  destruct (c !! "section_type") as [[| b | z | s]|], (c !! "content") as [v|];
    simpl; try done; by intros [= <-].
Qed.

Lemma context_parts_domain (i : nat) (chunks : list dict) :
  (∃ parts, context_parts i chunks = Returns parts)
  ↔ forallb chunk_renders chunks = true.
Proof.
  split; [|apply context_parts_returns].
  revert i. induction chunks as [|c rest IH]; intros i; [done|].
  simpl. intros [parts H].
  destruct (context_part i c) as [part|] eqn:Ec; [|done]. simpl in H.
  destruct (context_parts (S i) rest) as [parts'|] eqn:Er; [|done].
  apply andb_true_iff. split.
  - apply (context_part_returns i). by eexists.
  - apply (IH (S i)). by eexists.
Qed.

Lemma context_parts_lookup (i : nat) (chunks : list dict) (parts : list string) :
  context_parts i chunks = Returns parts →
  length parts = length chunks
  ∧ ∀ n c, chunks !! n = Some c →
      ∃ part, context_part (i + n) c = Returns part ∧ parts !! n = Some part.
Proof.
  revert i parts. induction chunks as [|c rest IH]; intros i parts; simpl.
  - intros [= <-]. split; [done|]. by intros n c ?.
  - destruct (context_part i c) as [part|] eqn:Ec; [|done]. simpl.
    destruct (context_parts (S i) rest) as [parts'|] eqn:Er; [|done]. simpl.
    intros [= <-]. destruct (IH _ _ Er) as [Hlen Hget].
    split; [simpl; by rewrite Hlen|].
    intros [|n] c' Hc'; simpl in *.
    + simplify_eq. exists part. by rewrite Nat.add_0_r.
    + destruct (Hget n c' Hc') as (part' & Hp & Hl).
      exists part'. split; [|done]. by rewrite <- Nat.add_succ_comm.
Qed.

(** X6.  [_build_context_block] returns a text exactly when every chunk has
    a "content" field and a section tag that is absent or text.  Otherwise it
    raises [KeyError] (a chunk without content) or [AttributeError] (a section
    tag that is not text, [None] included), and nothing else. *)
Theorem context_block_domain (chunks : list dict) :
  ((∃ ctx, _build_context_block chunks = Returns ctx)
   ↔ Forall (λ c, is_Some (c !! "content") ∧ textual_or_absent c "section_type" = true)
       chunks)
  ∧ (∀ e, _build_context_block chunks = Raises e →
          exn_kind e = KeyError ∨ exn_kind e = AttributeError).
Proof.
  split.
  - assert (Hall : forallb chunk_renders chunks = true
      ↔ Forall (λ c, is_Some (c !! "content")
                     ∧ textual_or_absent c "section_type" = true) chunks).
    { rewrite forallb_forall, Forall_forall. unfold chunk_renders.
      split; intros H c Hc.
      - apply list_elem_of_In, H in Hc.
        apply andb_true_iff in Hc as [?%bool_decide_eq_true ?]. done.
      - apply list_elem_of_In, H in Hc as [? ?].
        apply andb_true_iff. split; [by apply bool_decide_eq_true|done]. }
    rewrite <- Hall, <- (context_parts_domain 1). unfold _build_context_block.
    split.
    + intros [ctx H]. destruct (context_parts 1 chunks); [by eexists|done].
    + intros [parts ->]. by eexists.
  - unfold _build_context_block. generalize 1%nat.
    induction chunks as [|c rest IH]; intros i e; [done|]. simpl.
    destruct (context_part i c) as [part|] eqn:Ec.
    + simpl. specialize (IH (S i)).
      destruct (context_parts (S i) rest); simpl in *; [done|].
      intros [= <-]. by apply IH.
    + simpl. intros [= <-]. apply context_part_raises in Ec. rewrite Ec.
      destruct (textual_or_absent _ _); auto.
Qed.

(** X7.  The context block is the empty text only for the empty list of
    chunks. *)
Theorem context_block_empty_iff (chunks : list dict) (ctx : string) :
  _build_context_block chunks = Returns ctx →
  (ctx = "" ↔ chunks = []).
Proof.
  intros H. split.
  - intros ->. destruct chunks as [|c rest]; [done|].
    by apply context_block_nonempty in H.
  - intros ->. by injection H as <-.
Qed.

Lemma context_block_empty_iff_witness :
  _build_context_block [chunk_anonymous]
  = Returns ("[CHUNK 1 | Section: GENERAL | Page: ?]" +:+ nl
             +:+ "Knee replacement is payable after 24 months.")
  ∧ ("[CHUNK 1 | Section: GENERAL | Page: ?]" +:+ nl
     +:+ "Knee replacement is payable after 24 months." = ""
     ↔ [chunk_anonymous] = []).
Proof.
  split; [vm_compute; reflexivity|].
  apply context_block_empty_iff. vm_compute; reflexivity.
Defined.

Lemma context_part_in_block (chunks : list dict) (ctx : string) (n : nat) (c : dict) :
  _build_context_block chunks = Returns ctx →
  chunks !! n = Some c →
  ∃ part, context_part (S n) c = Returns part ∧ str_in part ctx = true.
Proof.
  unfold _build_context_block. intros H Hc.
  destruct (context_parts 1 chunks) as [parts|] eqn:Ep; [|done].
  injection H as <-.
  destruct (context_parts_lookup _ _ _ Ep) as [_ Hget].
  destruct (Hget n c Hc) as (part & Hpart & Hl).
  exists part. split; [done|].
  apply str_in_concat. by eapply list_elem_of_lookup_2.
Qed.

Lemma context_block_quotes (chunks : list dict) (ctx : string) (c : dict) (v : pyval) :
  _build_context_block chunks = Returns ctx →
  c ∈ chunks →
  c !! "content" = Some v →
  str_in (py_str v) ctx = true.
Proof.
  intros H [n Hn]%list_elem_of_lookup_1 Hv.
  destruct (context_part_in_block _ _ _ _ H Hn) as (part & Hpart & Hin).
  unfold context_part in Hpart.
  destruct (py_upper _) as [section|]; [|done]. simpl in Hpart.
  rewrite Hv in Hpart. injection Hpart as <-.
  eapply str_in_trans; [|exact Hin].
  do 8 apply str_in_app_r. apply str_in_refl.
Qed.

(** X8.  Every chunk is in the block.  For the chunk at position [n]
    (counted from 0) the block holds the tag line
    "[CHUNK n+1 | Section: S | Page: P]", with S the section tag in upper case
    ("GENERAL" without one) and P the page ("?" without one), then a line
    break and the content of the chunk. *)
Theorem context_block_mentions_every_chunk
    (chunks : list dict) (ctx : string) (n : nat) (c : dict) :
  _build_context_block chunks = Returns ctx →
  chunks !! n = Some c →
  ∃ section content,
    py_upper (get_or c "section_type" (PStr "general")) = Returns section
    ∧ c !! "content" = Some content
    ∧ str_in ("[CHUNK " +:+ pretty (S n) +:+ " | Section: " +:+ section
              +:+ " | Page: " +:+ py_str (get_or c "page_number" (PStr "?"))
              +:+ "]" +:+ nl +:+ py_str content) ctx = true
    ∧ str_in (py_str content) ctx = true.
Proof.
  intros H Hc.
  destruct (context_part_in_block _ _ _ _ H Hc) as (part & Hpart & Hin).
  unfold context_part in Hpart.
  destruct (py_upper _) as [section|]; [|done]. simpl in Hpart.
  destruct (c !! "content") as [content|] eqn:Hcontent; [|done].
  injection Hpart as <-.
  exists section, content. split; [done|]. split; [done|]. split; [done|].
  eapply context_block_quotes; [done| |done]. by eapply list_elem_of_lookup_2.
Qed.

Lemma context_block_mentions_every_chunk_witness :
  _build_context_block [chunk_hospital; chunk_anonymous]
  = Returns ("[CHUNK 1 | Section: COVERAGE | Page: 3]" +:+ nl
             +:+ "Inpatient hospitalisation is covered."
             +:+ nl +:+ nl +:+ "---" +:+ nl +:+ nl
             +:+ "[CHUNK 2 | Section: GENERAL | Page: ?]" +:+ nl
             +:+ "Knee replacement is payable after 24 months.")
  ∧ [chunk_hospital; chunk_anonymous] !! 1%nat = Some chunk_anonymous
  ∧ ∃ section content,
      py_upper (get_or chunk_anonymous "section_type" (PStr "general")) = Returns section
      ∧ chunk_anonymous !! "content" = Some content
      ∧ str_in ("[CHUNK " +:+ pretty 2%nat +:+ " | Section: " +:+ section
                +:+ " | Page: " +:+ py_str (get_or chunk_anonymous "page_number" (PStr "?"))
                +:+ "]" +:+ nl +:+ py_str content)
          ("[CHUNK 1 | Section: COVERAGE | Page: 3]" +:+ nl
           +:+ "Inpatient hospitalisation is covered."
           +:+ nl +:+ nl +:+ "---" +:+ nl +:+ nl
           +:+ "[CHUNK 2 | Section: GENERAL | Page: ?]" +:+ nl
           +:+ "Knee replacement is payable after 24 months.") = true
      ∧ str_in (py_str content)
          ("[CHUNK 1 | Section: COVERAGE | Page: 3]" +:+ nl
           +:+ "Inpatient hospitalisation is covered."
           +:+ nl +:+ nl +:+ "---" +:+ nl +:+ nl
           +:+ "[CHUNK 2 | Section: GENERAL | Page: ?]" +:+ nl
           +:+ "Knee replacement is payable after 24 months.") = true.
Proof.
  split; [vm_compute; reflexivity|]. split; [reflexivity|].
  apply (context_block_mentions_every_chunk [chunk_hospital; chunk_anonymous]);
    [vm_compute; reflexivity|reflexivity].
Defined.

(** ** More on deduplication *)

Lemma dedupe_loop_seen_ext (seen seen' : list pyval) (chunks : list dict) :
  (∀ k, k ∈ py_key <$> seen ↔ k ∈ py_key <$> seen') →
  dedupe_loop seen chunks = dedupe_loop seen' chunks.
Proof.
  revert seen seen'. induction chunks as [|c rest IH]; intros seen seen' Hext; [done|].
  rewrite !dedupe_loop_cons.
  assert (Hsame : existsb (py_eqb (get c "id")) seen
                  = existsb (py_eqb (get c "id")) seen').
  { apply eq_true_iff_eq. by rewrite !id_in_key. }
  rewrite Hsame. destruct (has_id c && _); [f_equal|]; apply IH; [|done].
  intros k. rewrite !fmap_cons, !elem_of_cons. by rewrite Hext.
Qed.

Lemma dedupe_loop_app (seen : list pyval) (a b : list dict) :
  dedupe_loop seen (a ++ b)
  = dedupe_loop seen a
    ++ dedupe_loop (reverse (chunk_ids (dedupe_loop seen a)) ++ seen) b.
Proof.
  revert seen. induction a as [|c a IH]; intros seen; [done|].
  rewrite <- app_comm_cons, !dedupe_loop_cons.
  destruct (has_id c && _); [|apply IH].
  rewrite IH. unfold chunk_ids. rewrite fmap_cons, reverse_cons. simpl.
  by rewrite <- app_assoc.
Qed.

Lemma dedupe_loop_filter_seen (extra seen : list pyval) (chunks : list dict) :
  dedupe_loop (extra ++ seen) chunks
  = filter (λ c, chunk_key c ∉ py_key <$> extra) (dedupe_loop seen chunks).
Proof.
  revert seen. induction chunks as [|c rest IH]; intros seen; [done|].
  rewrite !dedupe_loop_cons.
  destruct (has_id c && negb (existsb (py_eqb (get c "id")) seen)) eqn:E.
  - apply dedupe_keeps in E as [Hid Hnew].
    destruct (decide (chunk_key c ∈ py_key <$> extra)) as [Hin|Hout].
    + rewrite filter_cons_False by (by intros ?).
      rewrite <- IH.
      assert (has_id c && negb (existsb (py_eqb (get c "id")) (extra ++ seen)) = false)
        as ->.
      { apply not_true_iff_false. rewrite dedupe_keeps, fmap_app. set_solver. }
      apply dedupe_loop_seen_ext. intros k.
      rewrite !fmap_app, fmap_cons. unfold chunk_key in Hin. set_solver.
    + rewrite filter_cons_True by done. rewrite <- IH.
      assert (has_id c && negb (existsb (py_eqb (get c "id")) (extra ++ seen)) = true)
        as ->.
      { rewrite dedupe_keeps, fmap_app. set_solver. }
      f_equal. apply dedupe_loop_seen_ext. intros k.
      rewrite !fmap_cons, !fmap_app, fmap_cons. set_solver.
  - rewrite <- IH.
    assert (has_id c && negb (existsb (py_eqb (get c "id")) (extra ++ seen)) = false)
      as ->; [|done].
    apply not_true_iff_false in E. apply not_true_iff_false.
    rewrite dedupe_keeps in E |- *. rewrite fmap_app. set_solver.
Qed.

(** X9.  Deduplicating a concatenation: [_dedupe (a ++ b)] is [_dedupe a]
    followed by the chunks of [_dedupe b] whose identifier [_dedupe a] does
    not hold.  The one pass of the pipeline over the three semantic answers
    is thus the same as deduplicating them one after the other. *)
Theorem dedupe_app (a b : list dict) :
  _dedupe (a ++ b)
  = _dedupe a ++ filter (λ c, chunk_key c ∉ chunk_key <$> _dedupe a) (_dedupe b).
Proof.
  unfold _dedupe. rewrite dedupe_loop_app. f_equal.
  rewrite app_nil_r, <- (app_nil_r (reverse _)), dedupe_loop_filter_seen.
  apply list_filter_iff. intros c.
  unfold chunk_ids. rewrite fmap_reverse, elem_of_reverse, <- list_fmap_compose. done.
Qed.

(** X10.  [_dedupe] leaves a list as it is exactly when every chunk has an
    identifier that counts as true and no identifier occurs twice. *)
Theorem dedupe_fixed_iff (chunks : list dict) :
  _dedupe chunks = chunks
  ↔ Forall (λ c, has_id c = true) chunks ∧ NoDup (chunk_key <$> chunks).
Proof.
  unfold _dedupe. split.
  - intros H. rewrite <- H. split; [apply dedupe_loop_has_id|apply dedupe_loop_NoDup].
  - intros [Hid Hnd]. apply dedupe_loop_fixed; [done..|].
    apply Forall_forall. intros c _ []%elem_of_nil.
Qed.

(** ** More on enrichment *)

Lemma not_scoring_field_kept (cp policy : dict) (k : string) :
  k ∉ SCORING_FIELDS → foldl (merge_field cp) policy SCORING_FIELDS !! k = policy !! k.
Proof.
  intros Hk. rewrite merge_fields_lookup.
  by rewrite (bool_decide_eq_false_2 (k ∈ SCORING_FIELDS)).
Qed.

Lemma insurer_not_scoring : "insurer" ∉ SCORING_FIELDS.
Proof. unfold SCORING_FIELDS. set_solver. Qed.

Lemma merged_insurer (cp policy : dict) :
  text_or_falsy (foldl (merge_field cp) policy SCORING_FIELDS) "insurer"
  = text_or_falsy policy "insurer"
  ∧ insurer_name (foldl (merge_field cp) policy SCORING_FIELDS) = insurer_name policy.
Proof.
  unfold text_or_falsy, insurer_name, field_text.
  by rewrite (not_scoring_field_kept _ _ _ insurer_not_scoring).
Qed.

Lemma merge_twice (cp policy : dict) :
  foldl (merge_field cp) (foldl (merge_field cp) policy SCORING_FIELDS) SCORING_FIELDS
  = foldl (merge_field cp) policy SCORING_FIELDS.
Proof.
  apply map_eq. intros k. rewrite merge_fields_lookup.
  pose proof (merge_fields_lookup cp SCORING_FIELDS policy k) as H.
  unfold get at 1. revert H.
  generalize (foldl (merge_field cp) policy SCORING_FIELDS !! k). intros o Ho.
  destruct (bool_decide (k ∈ SCORING_FIELDS)); [|done]. simpl in *.
  destruct (is_none (get cp k)) eqn:Ec; simpl in *; [by rewrite andb_false_r|].
  rewrite andb_true_r in *.
  destruct (is_none (get policy k)) eqn:Ep; subst o; simpl.
  - by rewrite Ec.
  - fold (get policy k). by rewrite Ep.
Qed.

(** X11.  Enrichment is idempotent: enriching the enriched record against
    the same catalog changes nothing (insurers being text or values that
    count as false). *)
Theorem enrichment_idempotent (uploaded policy : dict) (all_catalog : list dict) :
  text_or_falsy uploaded "insurer" = true →
  Forall (λ cp, text_or_falsy cp "insurer" = true) all_catalog →
  enrich_uploaded uploaded all_catalog = Returns policy →
  enrich_uploaded policy all_catalog = Returns policy.
Proof.
  intros Hup Hcat. rewrite (enrich_uploaded_find _ _ Hup Hcat).
  destruct (List.find _ all_catalog) as [cp|] eqn:Efind; intros H.
  - replace policy with (foldl (merge_field cp) uploaded SCORING_FIELDS) by congruence.
    destruct (merged_insurer cp uploaded) as [Htext Hname].
    rewrite enrich_uploaded_find; [|by rewrite Htext|exact Hcat].
    by rewrite Hname, Efind, merge_twice.
  - replace policy with uploaded by congruence.
    by rewrite (enrich_uploaded_find _ _ Hup Hcat), Efind.
Qed.

Lemma enrichment_idempotent_witness :
  text_or_falsy star_upload "insurer" = true
  ∧ Forall (λ cp, text_or_falsy cp "insurer" = true) [hdfc_catalog; star_catalog]
  ∧ enrich_uploaded star_upload [hdfc_catalog; star_catalog]
    = Returns (<["waiting_period_preexisting_years" := PInt 3]>
               (<["room_rent_limit" := PStr "No limit"]> star_upload))
  ∧ enrich_uploaded (<["waiting_period_preexisting_years" := PInt 3]>
                     (<["room_rent_limit" := PStr "No limit"]> star_upload))
      [hdfc_catalog; star_catalog]
    = Returns (<["waiting_period_preexisting_years" := PInt 3]>
               (<["room_rent_limit" := PStr "No limit"]> star_upload)).
Proof.
  split; [vm_refl|]. split; [repeat constructor|].
  split; [vm_refl|].
  apply (enrichment_idempotent star_upload); [vm_refl|repeat constructor|vm_refl].
Defined.

Lemma enrich_from_catalog_skip (ins : string) (policy cp : dict) (rest : list dict) :
  text_or_falsy cp "insurer" = true →
  insurer_matches ins (insurer_name cp) = false →
  enrich_from_catalog ins policy (cp :: rest) = enrich_from_catalog ins policy rest.
Proof.
  intros Hcp Hno. cbn [enrich_from_catalog]. rewrite (insurer_lowered _ Hcp).
  cbn [mbind outcome_bind]. fold (insurer_matches ins (insurer_name cp)).
  by rewrite Hno.
Qed.

Lemma enrich_from_catalog_hit (ins : string) (policy cp : dict) (rest : list dict) :
  text_or_falsy cp "insurer" = true →
  insurer_matches ins (insurer_name cp) = true →
  enrich_from_catalog ins policy (cp :: rest)
  = Returns (foldl (merge_field cp) policy SCORING_FIELDS).
Proof.
  intros Hcp Hyes. cbn [enrich_from_catalog]. rewrite (insurer_lowered _ Hcp).
  cbn [mbind outcome_bind]. fold (insurer_matches ins (insurer_name cp)).
  by rewrite Hyes.
Qed.

Lemma enrich_from_catalog_bad (ins : string) (policy cp : dict) (rest : list dict) :
  text_or_falsy cp "insurer" = false →
  enrich_from_catalog ins policy (cp :: rest) = Raises (Exn AttributeError "").
Proof.
  intros Hcp. cbn [enrich_from_catalog].
  unfold text_or_falsy, get, py_or in *.
  destruct (cp !! "insurer") as [[| [] | z | s]|]; simpl in *; try done.
  apply negb_false_iff in Hcp. by rewrite Hcp.
Qed.

(** X12.  The [break] of the scan: once a catalog record matches, the
    records after it are not read.  After records that do not match, the
    result is that of enriching against the first match alone, whatever
    follows it, even a record on which the scan would raise. *)
Theorem enrichment_stops_at_first_match
    (uploaded cp : dict) (before after : list dict) :
  text_or_falsy uploaded "insurer" = true →
  Forall (λ c, text_or_falsy c "insurer" = true
               ∧ insurer_matches (insurer_name uploaded) (insurer_name c) = false)
    before →
  text_or_falsy cp "insurer" = true →
  insurer_matches (insurer_name uploaded) (insurer_name cp) = true →
  enrich_uploaded uploaded (before ++ cp :: after) = enrich_uploaded uploaded [cp].
Proof.
  intros Hup Hbefore Hcp Hyes. unfold enrich_uploaded.
  rewrite (insurer_lowered _ Hup). cbn [mbind outcome_bind].
  rewrite (enrich_from_catalog_hit _ _ _ [] Hcp Hyes).
  induction Hbefore as [|c before [Hc Hno] _ IH]; simpl app.
  - by apply enrich_from_catalog_hit.
  - by rewrite enrich_from_catalog_skip.
Qed.

Lemma enrichment_stops_at_first_match_witness :
  text_or_falsy star_upload "insurer" = true
  ∧ Forall (λ c, text_or_falsy c "insurer" = true
                 ∧ insurer_matches (insurer_name star_upload) (insurer_name c) = false)
      [hdfc_catalog]
  ∧ text_or_falsy star_catalog "insurer" = true
  ∧ insurer_matches (insurer_name star_upload) (insurer_name star_catalog) = true
  ∧ enrich_uploaded star_upload
      ([hdfc_catalog] ++ star_catalog :: [ {[ "insurer" := PInt 7 ]} ])
    = enrich_uploaded star_upload [star_catalog].
Proof.
  split; [vm_compute; reflexivity|].
  split; [repeat constructor; vm_compute; reflexivity|].
  split; [vm_compute; reflexivity|]. split; [vm_compute; reflexivity|].
  apply enrichment_stops_at_first_match;
    [vm_compute; reflexivity|repeat constructor; vm_compute; reflexivity
    |vm_compute; reflexivity|vm_compute; reflexivity].
Defined.

(** X13.  A catalog record at the head of the catalog whose insurer is,
    up to case, the insurer of the upload (not the empty name) matches:
    enrichment returns, and every scoring field the upload lacks has the
    value of the catalog record. *)
Theorem enrichment_same_insurer_matches (uploaded cp : dict) (rest : list dict) :
  text_or_falsy uploaded "insurer" = true →
  text_or_falsy cp "insurer" = true →
  insurer_name uploaded ≠ "" →
  insurer_name cp = insurer_name uploaded →
  ∃ policy,
    enrich_uploaded uploaded (cp :: rest) = Returns policy
    ∧ ∀ field, field ∈ SCORING_FIELDS → is_none (get uploaded field) = true →
        get policy field = get cp field.
Proof.
  intros Hup Hcp Hne Hsame.
  assert (Hyes : insurer_matches (insurer_name uploaded) (insurer_name cp) = true).
  { unfold insurer_matches. rewrite Hsame, str_in_refl.
    apply String.eqb_neq in Hne. by rewrite Hne. }
  exists (foldl (merge_field cp) uploaded SCORING_FIELDS). split.
  - unfold enrich_uploaded. rewrite (insurer_lowered _ Hup). cbn [mbind outcome_bind].
    by apply enrich_from_catalog_hit.
  - intros field Hf Hnone. unfold get at 1. rewrite merge_fields_lookup, Hnone.
    rewrite (bool_decide_eq_true_2 _ Hf). simpl.
    destruct (is_none (get cp field)) eqn:Ec; simpl; [|done].
    fold (get uploaded field).
    destruct (get uploaded field), (get cp field); done.
Qed.

Lemma enrichment_same_insurer_matches_witness :
  text_or_falsy {[ "insurer" := PStr "HDFC Ergo" ]} "insurer" = true
  ∧ text_or_falsy hdfc_catalog "insurer" = true
  ∧ insurer_name {[ "insurer" := PStr "HDFC Ergo" ]} ≠ ""
  ∧ insurer_name hdfc_catalog = insurer_name {[ "insurer" := PStr "HDFC Ergo" ]}
  ∧ ∃ policy,
      enrich_uploaded {[ "insurer" := PStr "HDFC Ergo" ]} (hdfc_catalog :: [star_catalog])
      = Returns policy
      ∧ ∀ field, field ∈ SCORING_FIELDS →
          is_none (get {[ "insurer" := PStr "HDFC Ergo" ]} field) = true →
          get policy field = get hdfc_catalog field.
Proof.
  split; [vm_compute; reflexivity|]. split; [vm_compute; reflexivity|].
  split; [vm_compute; discriminate|]. split; [vm_compute; reflexivity|].
  apply enrichment_same_insurer_matches;
    [vm_compute; reflexivity|vm_compute; reflexivity|vm_compute; discriminate
    |vm_compute; reflexivity].
Defined.

(** X14.  An insurer that is neither text nor a value that counts as false
    makes enrichment raise [AttributeError]: whatever the catalog, when it is
    the insurer of the upload; and when it is the insurer of a catalog record
    that the scan reaches, that is, one with no match before it. *)
Theorem enrichment_raises_on_non_text_insurer
    (uploaded bad : dict) (before after : list dict) :
  (text_or_falsy uploaded "insurer" = false →
   enrich_uploaded uploaded (before ++ after) = Raises (Exn AttributeError ""))
  ∧ (text_or_falsy uploaded "insurer" = true →
     Forall (λ c, text_or_falsy c "insurer" = true
                  ∧ insurer_matches (insurer_name uploaded) (insurer_name c) = false)
       before →
     text_or_falsy bad "insurer" = false →
     enrich_uploaded uploaded (before ++ bad :: after) = Raises (Exn AttributeError "")).
Proof.
  split.
  - intros Hup. unfold enrich_uploaded, text_or_falsy, get, py_or in *.
    destruct (uploaded !! "insurer") as [[| [] | z | s]|]; simpl in *; try done.
    apply negb_false_iff in Hup. by rewrite Hup.
  - intros Hup Hbefore Hbad. unfold enrich_uploaded.
    rewrite (insurer_lowered _ Hup). cbn [mbind outcome_bind].
    induction Hbefore as [|c before [Hc Hno] _ IH]; simpl app.
    + by apply enrich_from_catalog_bad.
    + by rewrite enrich_from_catalog_skip.
Qed.

Lemma enrichment_raises_on_non_text_insurer_witness :
  text_or_falsy {[ "insurer" := PInt 7 ]} "insurer" = false
  ∧ enrich_uploaded {[ "insurer" := PInt 7 ]} ([] ++ [star_catalog])
    = Raises (Exn AttributeError "")
  ∧ enrich_uploaded star_upload ([hdfc_catalog] ++ {[ "insurer" := PBool true ]} :: [star_catalog])
    = Raises (Exn AttributeError "").
Proof.
  split; [vm_compute; reflexivity|].
  destruct (enrichment_raises_on_non_text_insurer {[ "insurer" := PInt 7 ]}
              {[ "insurer" := PBool true ]} [] [star_catalog]) as [Hup _].
  destruct (enrichment_raises_on_non_text_insurer star_upload
              {[ "insurer" := PBool true ]} [hdfc_catalog] [star_catalog]) as [_ Hbad].
  split; [apply Hup; vm_compute; reflexivity|].
  apply Hbad; [vm_compute; reflexivity|repeat constructor; vm_compute; reflexivity
              |vm_compute; reflexivity].
Defined.

(** ** Results and lookups *)

Lemma record_nonempty (o : option dict) (d : dict) : record o = Some d → d ≠ ∅.
Proof.
  unfold record. destruct o as [d'|]; [|done]. case_bool_decide; [done|]. congruence.
Qed.

Lemma normalize_status_recognised (analysis : gmap string jsonval) :
  normalize_status analysis ∈ ["covered"; "partially_covered"; "excluded"; "unknown"].
Proof.
  unfold normalize_status.
  destruct (default _ (analysis !! "coverage_status")) as [[| b | z | s] | l];
    try set_solver.
  unfold str_in_tuple. simpl.
  destruct (String.eqb_spec s "covered") as [->|]; [set_solver|].
  destruct (String.eqb_spec s "partially_covered") as [->|]; [set_solver|].
  destruct (String.eqb_spec s "excluded") as [->|]; [set_solver|].
  destruct (String.eqb_spec s "unknown") as [->|]; set_solver.
Qed.

Lemma py_or_truthy (v dflt : pyval) : truthy dflt = true → truthy (py_or v dflt) = true.
Proof. unfold py_or. by destruct (truthy v) eqn:E. Qed.

Lemma j_or_truthy_or_default (v dflt : jsonval) :
  j_or v dflt = dflt ∨ jtruthy (j_or v dflt) = true.
Proof. unfold j_or. destruct (jtruthy v) eqn:E; auto. Qed.

(** ** Every run of the pipeline *)

Section Runs.
Context {vector : Type} (GROUNDED_CLAIM_SYSTEM : string).
Implicit Types (t : list (event vector)) (r : outcome claim_result).

(** X15.  On the catalog path (the first lookup is answered with a record
    and [find_uploaded_for_insurer] with a document) neither
    [get_policy_by_id] nor [list_catalog_policies] is called; every retrieval
    searches the document found for the insurer, under its "id"; and a
    document without an "id" field ends the run with [KeyError] after these
    two calls. *)
Theorem catalog_policy_searches_matched_document
    (policy_id condition treatment_type : string) t r (policy doc : dict) :
  exec (run_claim_check vector GROUNDED_CLAIM_SYSTEM policy_id condition treatment_type)
    t r →
  head t ≫= ev_record = Some policy →
  t !! 1%nat ≫= ev_record = Some doc →
  Forall (λ e, ev_call e ≠ list_catalog_policies ∧ ∀ p, ev_call e ≠ get_policy_by_id p) t
  ∧ (∀ id, doc !! "id" = Some id →
       Forall (λ e, ∀ target, search_target (ev_call e) = Some target → target = id) t)
  ∧ (doc !! "id" = None → r = Raises (Exn KeyError "") ∧ length t = 2%nat).
Proof.
  intros H Hcat Hdoc. unfold run_claim_check in H.
  exec_walk H; simpl in Hcat, Hdoc; simplify_eq; try done.
  all: split; [trace_forall; simpl; split; intros; congruence|].
  all: split; [intros id Hid; trace_forall; simpl; intros; congruence|].
  all: intros Hid; first [done | congruence].
Qed.

(** X16.  A success result is normalised, whatever the analysis replied:
    its coverage status is one of the four recognised values; diagnosis and
    treatment type are the arguments of the call; the policy name counts as
    true; at least one chunk was used; each of the four list fields is the
    empty list or a value that counts as true; the waiting period is the
    empty text or counts as true; the summary counts as true. *)
Theorem success_result_normalised
    (policy_id condition treatment_type : string) t r (res : claim_result) :
  exec (run_claim_check vector GROUNDED_CLAIM_SYSTEM policy_id condition treatment_type)
    t r →
  r = Returns res →
  res !! "error" = Some (JVal PNone) →
  (∃ status, res !! "coverage_status" = Some (JVal (PStr status))
             ∧ status ∈ ["covered"; "partially_covered"; "excluded"; "unknown"])
  ∧ res !! "diagnosis" = Some (JVal (PStr condition))
  ∧ res !! "treatment_type" = Some (JVal (PStr treatment_type))
  ∧ (∃ name, res !! "policy_name" = Some (JVal name) ∧ truthy name = true)
  ∧ (∃ n, res !! "chunks_used" = Some (JVal (PInt n)) ∧ 1 ≤ n)
  ∧ Forall (λ k, ∃ v, res !! k = Some v ∧ (v = JList [] ∨ jtruthy v = true))
      ["severity_requirements"; "exclusions_applicable"; "risk_flags";
       "required_documents"]
  ∧ (∃ v, res !! "waiting_period" = Some v ∧ (v = JVal (PStr "") ∨ jtruthy v = true))
  ∧ (∃ v, res !! "analysis_summary" = Some v ∧ jtruthy v = true).
Proof.
  intros H Hret Herr. unfold run_claim_check in H.
  exec_walk H; simplify_eq; try (by vm_compute in Herr).
  all: clear Herr.
  all: split; [eexists; split; [reflexivity|apply normalize_status_recognised]|].
  all: split; [reflexivity|].
  all: split; [reflexivity|].
  all: split; [eexists; split; [reflexivity|by apply py_or_truthy]|].
  all: split; [eexists; split; [reflexivity|simpl; lia]|].
  all: split;
    [trace_forall; (eexists; split; [reflexivity|apply j_or_truthy_or_default])|].
  all: split; [eexists; split; [reflexivity|apply j_or_truthy_or_default]|].
  all: eexists; split; [reflexivity|].
  all: match goal with
       | |- jtruthy (j_or ?v ?d) = true =>
           destruct (j_or_truthy_or_default v d) as [-> | ->]; done
       end.
Qed.


(** X17.  Only the embedding calls are guarded: when any other call is
    answered with an exception, that call is the last of the run and the run
    ends with this very exception. *)
Theorem collaborator_exception_propagates
    (policy_id condition treatment_type : string) t r (e : event vector) (x : exn) :
  exec (run_claim_check vector GROUNDED_CLAIM_SYSTEM policy_id condition treatment_type)
    t r →
  e ∈ t →
  ev_raised e = Some x →
  ev_embed e = None →
  last t = Some e ∧ r = Raises x.
Proof.
  intros H Hin Hraised Hembed. unfold run_claim_check in H.
  exec_walk H.
  all: repeat (apply elem_of_cons in Hin as [-> | Hin]; simpl in Hraised, Hembed;
               [first [discriminate | by simplify_eq]|]).
  all: by apply elem_of_nil in Hin.
Qed.

(** X18.  A run issues at most eleven calls, at most one of them to the
    language model, and that call is the last one; a success result is
    produced only after the language model has answered. *)
Theorem analysis_is_the_last_call
    (policy_id condition treatment_type : string) t r :
  exec (run_claim_check vector GROUNDED_CLAIM_SYSTEM policy_id condition treatment_type)
    t r →
  (length t ≤ 11)%nat
  ∧ (length (List.filter (λ e, is_chat_json (ev_call e)) t) ≤ 1)%nat
  ∧ (∀ ev, ev ∈ t → is_chat_json (ev_call ev) = true → last t = Some ev)
  ∧ (∀ res, r = Returns res → res !! "error" = Some (JVal PNone) →
       is_Some (last t ≫= ev_analysis)).
Proof.
  intros H. unfold run_claim_check in H.
  exec_walk H.
  all: split; [simpl; lia|].
  all: split; [simpl; lia|].
  all: split;
    [intros ev Hin Hchat;
     repeat (apply elem_of_cons in Hin as [-> | Hin]; simpl in Hchat;
             [first [discriminate | reflexivity]|]);
     by apply elem_of_nil in Hin|].
  all: intros res Hres Herr; simplify_eq; first [by vm_compute in Herr | by eexists].
Qed.

(** X19.  The score of a result is not the language model's: it is
    [compute_claim_score] at the normalised status, the exclusions and the
    risk flags of the analysis, and the policy record of the run (the catalog
    record, or the upload enriched from the catalog); it lies between 0 and
    95. *)
Theorem feasibility_score_from_rule_table
    (policy_id condition treatment_type : string) t r (res : claim_result)
    (analysis : gmap string jsonval) :
  exec (run_claim_check vector GROUNDED_CLAIM_SYSTEM policy_id condition treatment_type)
    t r →
  r = Returns res →
  last t ≫= ev_analysis = Some analysis →
  ∃ policy score,
    scoring_policy t = Some policy
    ∧ compute_claim_score (normalize_status analysis)
        (j_or (jget analysis "exclusions_applicable") (JList []))
        (j_or (jget analysis "risk_flags") (JList [])) policy = Returns score
    ∧ res !! "feasibility_score" = Some (JVal (PInt score))
    ∧ 0 ≤ score ≤ 95.
Proof.
  intros H Hres Hlast. unfold run_claim_check in H.
  exec_walk H; simpl in Hlast; simplify_eq.
  all: eexists _, _.
  all: split;
    [unfold scoring_policy; simpl;
     repeat match goal with
            | E : record _ = _ |- _ => rewrite E
            | E : enrich_uploaded _ _ = _ |- _ => rewrite E
            end; reflexivity|].
  all: split; [eassumption|].
  all: split; [reflexivity|].
  all: match goal with
       | E : compute_claim_score _ _ _ _ = Returns _ |- _ =>
           rewrite compute_claim_score_eq in E;
           destruct (_ && _) in E; [|discriminate];
           injection E as <-
       end.
  all: match goal with
       | |- context [rule_table_sum ?a ?b ?c ?d ?e ?f] =>
           pose proof (rule_table_sum_upper a b c d e f); unfold clamp; lia
       end.
Qed.

(** X20.  Grounding: the prompt sent to the language model holds the
    content of every chunk of the fused set, the condition and the treatment
    type. *)
Theorem prompt_quotes_every_fused_chunk
    (policy_id condition treatment_type : string) t r
    (fused : list dict) (prompt : string) (c : dict) (v : pyval) :
  exec (run_claim_check vector GROUNDED_CLAIM_SYSTEM policy_id condition treatment_type)
    t r →
  fused ∈ omap ev_fused t →
  prompt ∈ omap (λ e, chat_prompt (ev_call e)) t →
  c ∈ fused →
  c !! "content" = Some v →
  str_in (py_str v) prompt = true
  ∧ str_in condition prompt = true
  ∧ str_in treatment_type prompt = true.
Proof.
  intros H Hfused Hprompt Hc Hv. unfold run_claim_check in H.
  exec_walk H; simpl in Hfused, Hprompt.
  all: try (by apply elem_of_nil in Hprompt).
  all: apply list_elem_of_singleton in Hfused, Hprompt; subst.
  all: split;
    [unfold user_prompt_text; do 2 apply str_in_app_r;
     eapply str_in_trans; [by eapply context_block_quotes|apply str_in_prefix]|].
  all: split; unfold user_prompt_text.
  all: first [ do 6 apply str_in_app_r; apply str_in_prefix
             | do 9 apply str_in_app_r; apply str_in_prefix ].
Qed.

End Runs.

(** ** The metadata lookup *)

Section MetadataLookup.
Context {vector : Type}.
Implicit Types (t : list (event vector)).

(** X21.  [_get_policy_metadata] tries the catalog first: a catalog record
    is returned after that one call; without one, and when no call fails, the
    uploaded policies are asked next and their record, or the empty record,
    is returned.  The result is the empty record exactly when no lookup was
    answered with a record. *)
Theorem policy_metadata_catalog_first (policy_id : string) t (r : outcome dict) :
  exec (_get_policy_metadata policy_id) t r →
  (∀ policy, head t ≫= ev_record = Some policy →
     r = Returns policy ∧ ev_call <$> t = [get_catalog_policy policy_id])
  ∧ (head t ≫= ev_record = None → Forall (λ e, ev_raised e = None) t →
     ev_call <$> t = [get_catalog_policy policy_id; get_policy_by_id policy_id]
     ∧ r = Returns (default ∅ (t !! 1%nat ≫= ev_record)))
  ∧ (∀ d, r = Returns d → (d = ∅ ↔ Forall (λ e, ev_record e = None) t)).
Proof.
  intros H. unfold _get_policy_metadata in H.
  exec_walk H; simpl.
  all: split; [intros policy Hp; first [by split; [congruence|] | congruence]|].
  all: split;
    [intros Hn Hall; repeat (apply Forall_cons_1 in Hall as [? Hall]);
     simpl in *; first [done | congruence]|].
  all: intros d Hd; try discriminate; injection Hd as <-.
  - split.
    + intros Hg. exfalso. eapply record_nonempty; eassumption.
    + intros Hall. apply Forall_cons_1 in Hall as [Hall _]. simpl in Hall. congruence.
  - split.
    + intros Hd. trace_forall; simpl; [done|].
      destruct (record a0) as [u|] eqn:Hu; [|done].
      simpl in Hd. exfalso. eapply record_nonempty; eassumption.
    + intros Hall. apply Forall_cons_1 in Hall as [_ Hall].
      apply Forall_cons_1 in Hall as [Hall _]. simpl in Hall. by rewrite Hall.
Qed.

End MetadataLookup.

Section LookupAgreement.
Context {vector : Type} (GROUNDED_CLAIM_SYSTEM : string).

(** X22.  [_get_policy_metadata] and [run_claim_check] resolve an
    identifier alike: when the lookups of the two runs are answered the same
    way, the metadata is the empty record exactly when the claim check
    returns "Policy not found.". *)
Theorem policy_not_found_iff_no_metadata
    (policy_id condition treatment_type : string)
    (t1 t2 : list (event vector)) (r1 : outcome dict) (r2 : outcome claim_result) :
  exec (_get_policy_metadata policy_id) t1 r1 →
  exec (run_claim_check vector GROUNDED_CLAIM_SYSTEM policy_id condition treatment_type)
    t2 r2 →
  ev_summary <$> t1 = take (length t1) (ev_summary <$> t2) →
  r1 = Returns ∅ ↔ r2 = Returns (error_result "Policy not found.").
Proof.
  intros H1 H2 Hsum. unfold _get_policy_metadata in H1. unfold run_claim_check in H2.
  exec_walk H1; exec_walk H2; simpl in Hsum; unfold ev_summary in Hsum; simpl in Hsum.
  all: try discriminate.
  all: injection Hsum as Hsum; simplify_eq.
  all: split; intros Hr; try discriminate; try reflexivity.
  all: repeat match goal with
              | E : record ?x = record ?y, E' : record ?y = _ |- _ => rewrite E' in E
              end.
  all: try congruence.
  all: repeat match goal with
              | E : record ?x = _ |- context [default _ (record ?x)] => rewrite E
              | E : record ?x = _, Hr : context [default _ (record ?x)] |- _ =>
                  rewrite E in Hr
              end; simpl in *.
  all: try done.
  all: try (apply (f_equal (λ o : outcome claim_result,
                      match o with
                      | Returns res => res !! "error"
                      | Raises _ => None
                      end)) in Hr;
            vm_compute in Hr; discriminate).
  all: exfalso; simplify_eq.
  all: match goal with
       | E : record _ = Some ∅ |- _ => exact (record_nonempty _ _ E eq_refl)
       end.
Qed.

End LookupAgreement.

(** ** The further properties on sample runs *)

Lemma catalog_policy_searches_matched_document_witness :
  exec (run_claim_check string "system prompt" "star-comprehensive" "knee replacement"
          "surgery") indexed_catalog_run.2 indexed_catalog_run.1
  ∧ head indexed_catalog_run.2 ≫= ev_record = Some star_catalog
  ∧ indexed_catalog_run.2 !! 1%nat ≫= ev_record = Some star_upload
  ∧ star_upload !! "id" = Some (PStr "u1")
  ∧ Forall (λ e, ∀ target, search_target (ev_call e) = Some target → target = PStr "u1")
      indexed_catalog_run.2.
Proof.
  split; [apply run_exec|].
  assert (Hcat : head indexed_catalog_run.2 ≫= ev_record = Some star_catalog) by vm_refl.
  assert (Hdoc : indexed_catalog_run.2 !! 1%nat ≫= ev_record = Some star_upload)
    by vm_refl.
  assert (Hid : star_upload !! "id" = Some (PStr "u1")) by vm_refl.
  split; [exact Hcat|]. split; [exact Hdoc|]. split; [exact Hid|].
  destruct (catalog_policy_searches_matched_document "system prompt"
              "star-comprehensive" "knee replacement" "surgery"
              indexed_catalog_run.2 indexed_catalog_run.1 star_catalog star_upload
              (run_exec _ _ _) Hcat Hdoc) as (_ & Hsearch & _).
  exact (Hsearch _ Hid).
Defined.

Lemma success_result_normalised_witness :
  exec sample_check uploaded_run.2 uploaded_run.1
  ∧ ∃ res, uploaded_run.1 = Returns res
      ∧ res !! "error" = Some (JVal PNone)
      ∧ res !! "diagnosis" = Some (JVal (PStr "knee replacement"))
      ∧ ∃ n, res !! "chunks_used" = Some (JVal (PInt n)) ∧ 1 ≤ n.
Proof.
  split; [apply run_exec|].
  pose (res := match uploaded_run.1 with Returns res => res | Raises _ => ∅ end).
  assert (Hres : uploaded_run.1 = Returns res) by vm_refl.
  assert (Herr : res !! "error" = Some (JVal PNone)) by vm_refl.
  exists res. split; [exact Hres|]. split; [exact Herr|].
  destruct (success_result_normalised "system prompt" "u1" "knee replacement"
              "surgery" uploaded_run.2 uploaded_run.1 res (run_exec _ _ _) Hres Herr)
    as (_ & Hdiag & _ & _ & Hused & _).
  split; [exact Hdiag|exact Hused].
Defined.

Lemma collaborator_exception_propagates_witness :
  exec sample_check analysis_down_run.2 analysis_down_run.1
  ∧ ∃ e, e ∈ analysis_down_run.2
      ∧ ev_raised e = Some (Exn OtherError "service unavailable")
      ∧ ev_embed e = None
      ∧ last analysis_down_run.2 = Some e
      ∧ analysis_down_run.1 = Raises (Exn OtherError "service unavailable").
Proof.
  split; [apply run_exec|].
  destruct (last analysis_down_run.2) as [e|] eqn:Hlast; [|by vm_compute in Hlast].
  exists e.
  assert (Hin : e ∈ analysis_down_run.2) by (by apply last_Some_elem_of).
  assert (Hraised : ev_raised e = Some (Exn OtherError "service unavailable")).
  { vm_compute in Hlast. by injection Hlast as <-. }
  assert (Hembed : ev_embed e = None).
  { vm_compute in Hlast. by injection Hlast as <-. }
  split; [exact Hin|]. split; [exact Hraised|]. split; [exact Hembed|].
  destruct (collaborator_exception_propagates "system prompt" "u1" "knee replacement"
              "surgery" analysis_down_run.2 analysis_down_run.1 e _ (run_exec _ _ _)
              Hin Hraised Hembed) as [_ Hresult].
  split; [reflexivity|exact Hresult].
Defined.

Lemma analysis_is_the_last_call_witness :
  exec sample_check uploaded_run.2 uploaded_run.1
  ∧ (length uploaded_run.2 ≤ 11)%nat
  ∧ (length (List.filter (λ e, is_chat_json (ev_call e)) uploaded_run.2) ≤ 1)%nat.
Proof.
  split; [apply run_exec|].
  destruct (analysis_is_the_last_call "system prompt" "u1" "knee replacement" "surgery"
              uploaded_run.2 uploaded_run.1 (run_exec _ _ _)) as (Hlen & Hone & _).
  split; [exact Hlen|exact Hone].
Defined.

Lemma feasibility_score_from_rule_table_witness :
  exec sample_check uploaded_run.2 uploaded_run.1
  ∧ last uploaded_run.2 ≫= ev_analysis = Some sample_analysis
  ∧ ∃ res, uploaded_run.1 = Returns res
      ∧ ∃ policy score,
          scoring_policy uploaded_run.2 = Some policy
          ∧ compute_claim_score (normalize_status sample_analysis)
              (j_or (jget sample_analysis "exclusions_applicable") (JList []))
              (j_or (jget sample_analysis "risk_flags") (JList [])) policy
            = Returns score
          ∧ res !! "feasibility_score" = Some (JVal (PInt score))
          ∧ 0 ≤ score ≤ 95.
Proof.
  split; [apply run_exec|].
  pose (res := match uploaded_run.1 with Returns res => res | Raises _ => ∅ end).
  assert (Hres : uploaded_run.1 = Returns res) by vm_refl.
  assert (Hlast : last uploaded_run.2 ≫= ev_analysis = Some sample_analysis) by vm_refl.
  split; [exact Hlast|]. exists res. split; [exact Hres|].
  exact (feasibility_score_from_rule_table "system prompt" "u1" "knee replacement"
           "surgery" uploaded_run.2 uploaded_run.1 res sample_analysis
           (run_exec _ _ _) Hres Hlast).
Defined.

Lemma policy_metadata_catalog_first_witness :
  exec (_get_policy_metadata "u1") (metadata_run uploaded_scenario "u1").2
    (metadata_run uploaded_scenario "u1").1
  ∧ head (metadata_run uploaded_scenario "u1").2 ≫= ev_record = None
  ∧ ev_call <$> (metadata_run uploaded_scenario "u1").2
    = [get_catalog_policy "u1"; get_policy_by_id "u1"]
  ∧ (metadata_run uploaded_scenario "u1").1
    = Returns (default ∅ ((metadata_run uploaded_scenario "u1").2 !! 1%nat ≫= ev_record)).
Proof.
  split; [apply run_exec|]. split; [vm_compute; reflexivity|].
  destruct (policy_metadata_catalog_first "u1" (metadata_run uploaded_scenario "u1").2
              (metadata_run uploaded_scenario "u1").1 (run_exec _ _ _))
    as (_ & Hup & _).
  apply Hup; [vm_compute; reflexivity|].
  repeat constructor.
Defined.

Lemma policy_not_found_iff_no_metadata_witness :
  exec (_get_policy_metadata "u9") (metadata_run unknown_policy_scenario "u9").2
    (metadata_run unknown_policy_scenario "u9").1
  ∧ exec (run_claim_check string "system prompt" "u9" "knee replacement" "surgery")
      unknown_policy_run.2 unknown_policy_run.1
  ∧ ev_summary <$> (metadata_run unknown_policy_scenario "u9").2
    = take (length (metadata_run unknown_policy_scenario "u9").2)
        (ev_summary <$> unknown_policy_run.2)
  ∧ (metadata_run unknown_policy_scenario "u9").1 = Returns ∅
  ∧ unknown_policy_run.1 = Returns (error_result "Policy not found.").
Proof.
  split; [apply run_exec|]. split; [apply run_exec|].
  split; [vm_compute; reflexivity|]. split; [vm_compute; reflexivity|].
  apply (policy_not_found_iff_no_metadata "system prompt" "u9" "knee replacement"
           "surgery" (metadata_run unknown_policy_scenario "u9").2 unknown_policy_run.2
           (metadata_run unknown_policy_scenario "u9").1 unknown_policy_run.1);
    [apply run_exec|apply run_exec|vm_compute; reflexivity|vm_compute; reflexivity].
Defined.

Lemma prompt_quotes_every_fused_chunk_witness :
  exec sample_check uploaded_run.2 uploaded_run.1
  ∧ ∃ prompt,
      [chunk_hospital; chunk_anonymous; chunk_cosmetic] ∈ omap ev_fused uploaded_run.2
      ∧ prompt ∈ omap (λ e, chat_prompt (ev_call e)) uploaded_run.2
      ∧ chunk_anonymous ∈ [chunk_hospital; chunk_anonymous; chunk_cosmetic]
      ∧ chunk_anonymous !! "content"
        = Some (PStr "Knee replacement is payable after 24 months.")
      ∧ str_in (py_str (PStr "Knee replacement is payable after 24 months.")) prompt
        = true
      ∧ str_in "knee replacement" prompt = true
      ∧ str_in "surgery" prompt = true.
Proof.
  split; [apply run_exec|].
  pose (prompt := default "" (head (omap (λ e, chat_prompt (ev_call e)) uploaded_run.2))).
  assert (Efused : omap ev_fused uploaded_run.2
                   = [[chunk_hospital; chunk_anonymous; chunk_cosmetic]]) by vm_refl.
  assert (Eprompt : omap (λ e, chat_prompt (ev_call e)) uploaded_run.2 = [prompt])
    by vm_refl.
  assert (Hfused : [chunk_hospital; chunk_anonymous; chunk_cosmetic]
                   ∈ omap ev_fused uploaded_run.2) by (rewrite Efused; left).
  assert (Hprompt : prompt ∈ omap (λ e, chat_prompt (ev_call e)) uploaded_run.2)
    by (rewrite Eprompt; left).
  assert (Hin : chunk_anonymous ∈ [chunk_hospital; chunk_anonymous; chunk_cosmetic])
    by (right; left).
  assert (Hcontent : chunk_anonymous !! "content"
                     = Some (PStr "Knee replacement is payable after 24 months."))
    by vm_refl.
  exists prompt. split; [exact Hfused|]. split; [exact Hprompt|].
  split; [exact Hin|]. split; [exact Hcontent|].
  exact (prompt_quotes_every_fused_chunk "system prompt" "u1" "knee replacement"
           "surgery" uploaded_run.2 uploaded_run.1 _ prompt chunk_anonymous _
           (run_exec _ _ _) Hfused Hprompt Hin Hcontent).
Defined.
